(** * Special matrices of scipy.linalg: a shallow embedding

    The functions of [scipy/linalg/special_matrices.py] (tri, tril, triu,
    toeplitz, hankel, hadamard, kron, block_diag) are embedded over a small
    model of the numpy array they are written against: an array is a shape,
    an element type tag and its elements in row-major order. *)

From Stdlib Require Import ZArith List Lia Bool Arith Floats.
Import ListNotations.
Local Open Scope Z_scope.

(** ** The array model *)

Module Np.

(** Element types.  Elements are stored as integers: a boolean array holds 0
    and 1, an integer array holds 64-bit two's complement values.  The
    elements of a float array are followed where they are copied and indexed
    only: float64 rounding, infinities and NaN are not values of this model,
    so what is proved of arithmetic and of conversions is stated for boolean
    and integer arrays, or for arrays of one element type where nothing is
    converted.  The module [F64] below has the IEEE arithmetic where a
    property depends on it. *)
Inductive dtype := dt_bool | dt_int | dt_float.

Definition dtype_eqb (d e : dtype) : bool :=
  match d, e with
  | dt_bool, dt_bool | dt_int, dt_int | dt_float, dt_float => true
  | _, _ => false
  end.

(** numpy's type promotion on the three tags: bool < int < float. *)
Definition promote (d e : dtype) : dtype :=
  match d, e with
  | dt_float, _ | _, dt_float => dt_float
  | dt_int, _ | _, dt_int => dt_int
  | dt_bool, dt_bool => dt_bool
  end.

Definition wrap64 (z : Z) : Z := (z + 2 ^ 63) mod 2 ^ 64 - 2 ^ 63.

(** Conversion of a value to an element type: to bool it is "non-zero", to
    int it wraps to 64 bits.  Between bool and int this is numpy's conversion;
    to and from float it is exact only on the integers a float64 holds
    exactly and an int64 can take. *)
Definition cast (d : dtype) (z : Z) : Z :=
  match d with
  | dt_bool => if z =? 0 then 0 else 1
  | dt_int => wrap64 z
  | dt_float => z
  end.

Record ndarray := mk_ndarray {
  shape : list nat;
  dtype_of : dtype;
  data : list Z
}.

Definition ndim (a : ndarray) : nat := length (shape a).

Definition prod_shape (s : list nat) : nat := fold_right Nat.mul 1%nat s.

(** [len(a)] for an array of at least one dimension, [a.shape[k]]. *)
Definition len (a : ndarray) : nat := nth 0 (shape a) 0%nat.
Definition shape_at (a : ndarray) (k : nat) : nat := nth k (shape a) 0%nat.

(** An array is well formed when it has as many elements as its shape says
    and each element is a value of its element type. *)
Definition values_ok (a : ndarray) : Prop :=
  Forall (fun v => cast (dtype_of a) v = v) (data a).

(** Two element types between which nothing is converted through float64:
    they are equal, or both are bool or int. *)
Definition no_float_conversion (d e : dtype) : Prop :=
  d = e \/ (d <> dt_float /\ e <> dt_float).

Definition wf (a : ndarray) : Prop :=
  length (data a) = prod_shape (shape a) /\ values_ok a.

(** [a[i]] of a 1D array and [a[i, j]] of a 2D array, for indices in range. *)
Definition get1 (a : ndarray) (i : nat) : Z := nth i (data a) 0.
Definition get2 (a : ndarray) (i j : nat) : Z :=
  nth (i * shape_at a 1 + j) (data a) 0.

(** Exceptions raised by the module or by numpy underneath it. *)
Inductive exn :=
| ValueError_hadamard
| ValueError_block_diag (bad_args : list nat)
| ValueError_concatenate
| ValueError_broadcast
| ValueError_reshape
| IndexError
| TypeError.

Inductive result (A : Type) :=
| Ok (a : A)
| Raise (e : exn).
Arguments Ok {A} a.
Arguments Raise {A} e.

Definition bind {A B} (r : result A) (k : A -> result B) : result B :=
  match r with
  | Ok a => k a
  | Raise e => Raise e
  end.

Notation "x <- r ;; k" := (bind r (fun x => k))
  (at level 61, r at next level, right associativity).

(** [np.arange(n)]: empty when [n <= 0]. *)
Definition arange (n : Z) : ndarray :=
  mk_ndarray [Z.to_nat n] dt_int (map Z.of_nat (seq 0 (Z.to_nat n))).

(** [np.arange(start, stop, -1)], the descending range an [ogrid] slice with
    step -1 produces. *)
Definition arange_down (start stop : Z) : ndarray :=
  let n := Z.to_nat (start - stop) in
  mk_ndarray [n] dt_int (map (fun t => start - Z.of_nat t) (seq 0 n)).

(** [np.subtract.outer(a, b)] and, more generally, a binary operation applied
    to every pair: the result has shape [a.shape + b.shape]. *)
Definition outer_with (f : Z -> Z -> Z) (d : dtype) (a b : ndarray) : ndarray :=
  mk_ndarray (shape a ++ shape b) d
    (flat_map (fun x => map (fun y => cast d (f x y)) (data b)) (data a)).

Definition subtract_outer (a b : ndarray) : ndarray :=
  outer_with Z.sub (promote (dtype_of a) (dtype_of b)) a b.

(** [np.greater_equal(a, s)] against a scalar: a boolean array. *)
Definition greater_equal (a : ndarray) (s : Z) : ndarray :=
  mk_ndarray (shape a) dt_bool (map (fun x => Z.b2z (s <=? x)) (data a)).

Definition astype (a : ndarray) (d : dtype) : ndarray :=
  mk_ndarray (shape a) d (map (cast d) (data a)).

(** Elementwise binary operation of two arrays of the same shape.  Shapes
    that differ would be broadcast by numpy; that is not modelled here, and
    the model raises. *)
Definition list_eqb (s t : list nat) : bool :=
  if list_eq_dec Nat.eq_dec s t then true else false.

Definition elementwise (f : Z -> Z -> Z) (a b : ndarray) : result ndarray :=
  if list_eqb (shape a) (shape b) then
    let d := promote (dtype_of a) (dtype_of b) in
    Ok (mk_ndarray (shape a) d
          (map (fun p => cast d (f (fst p) (snd p))) (combine (data a) (data b))))
  else Raise ValueError_broadcast.

Definition multiply := elementwise Z.mul.
Definition add := elementwise Z.add.

(** [s - a] for a Python integer [s]: the result is at least an int array. *)
Definition scalar_rsub (s : Z) (a : ndarray) : ndarray :=
  let d := promote dt_int (dtype_of a) in
  mk_ndarray (shape a) d (map (fun x => cast d (s - x)) (data a)).

(** [a.ravel()], [a.conjugate()] (elements are real), [np.zeros_like(a)],
    [np.zeros(shape, dtype)]. *)
Definition ravel (a : ndarray) : ndarray :=
  mk_ndarray [prod_shape (shape a)] (dtype_of a) (data a).

Definition conjugate (a : ndarray) : ndarray := a.

Definition zeros (s : list nat) (d : dtype) : ndarray :=
  mk_ndarray s d (repeat 0 (prod_shape s)).

Definition zeros_like (a : ndarray) : ndarray := zeros (shape a) (dtype_of a).

(** The slices [r[-1:0:-1]] and [r[1:]] of a 1D array. *)
Definition slice_rev_tail (r : ndarray) : ndarray :=
  mk_ndarray [Nat.pred (len r)] (dtype_of r) (rev (tl (data r))).

Definition slice_tail (r : ndarray) : ndarray :=
  mk_ndarray [Nat.pred (len r)] (dtype_of r) (tl (data r)).

Definition reshape (a : ndarray) (s : list nat) : result ndarray :=
  if (prod_shape s =? prod_shape (shape a))%nat
  then Ok (mk_ndarray s (dtype_of a) (data a))
  else Raise ValueError_reshape.

Definition atleast_1d (a : ndarray) : ndarray :=
  match shape a with
  | [] => mk_ndarray [1%nat] (dtype_of a) (data a)
  | _ => a
  end.

Definition atleast_2d (a : ndarray) : ndarray :=
  match shape a with
  | [] => mk_ndarray [1%nat; 1%nat] (dtype_of a) (data a)
  | [n] => mk_ndarray [1%nat; n] (dtype_of a) (data a)
  | _ => a
  end.

(** The [i]-th block of [n] consecutive elements. *)
Definition chunk (n i : nat) (l : list Z) : list Z := firstn n (skipn (i * n) l).

(** Iterating an array yields its sub-arrays along the first axis; a
    0-dimensional array cannot be iterated. *)
Definition unstack (a : ndarray) : result (list ndarray) :=
  match shape a with
  | [] => Raise TypeError
  | d0 :: rest =>
      Ok (map (fun i => mk_ndarray rest (dtype_of a)
                          (chunk (prod_shape rest) i (data a)))
              (seq 0 d0))
  end.

(** [np.concatenate(arrs, axis)].  It needs at least one array, and all of
    them must have the axis and agree on every other dimension. *)
Definition same_off_axis (axis : nat) (a0 a : ndarray) : bool :=
  (axis <? ndim a)%nat
  && list_eqb (firstn axis (shape a)) (firstn axis (shape a0))
  && list_eqb (skipn (S axis) (shape a)) (skipn (S axis) (shape a0)).

Definition sum_nat (l : list nat) : nat := fold_right Nat.add 0%nat l.

Definition concatenate (arrs : list ndarray) (axis : nat) : result ndarray :=
  match arrs with
  | [] => Raise ValueError_concatenate
  | a0 :: _ =>
      if forallb (same_off_axis axis a0) arrs then
        let d := fold_right promote (dtype_of a0) (map dtype_of arrs) in
        Ok (mk_ndarray
              (firstn axis (shape a0)
                 ++ sum_nat (map (fun a => shape_at a axis) arrs)
                 :: skipn (S axis) (shape a0))
              d
              (flat_map
                 (fun o =>
                    flat_map
                      (fun a => map (cast d)
                                  (chunk (prod_shape (skipn axis (shape a))) o (data a)))
                      arrs)
                 (seq 0 (prod_shape (firstn axis (shape a0))))))
      else Raise ValueError_concatenate
  end.

Definition hstack (arrs : list ndarray) : result ndarray :=
  let arrs := map atleast_1d arrs in
  match arrs with
  | a0 :: _ => if (ndim a0 =? 1)%nat then concatenate arrs 0 else concatenate arrs 1
  | [] => concatenate arrs 1
  end.

Definition vstack (arrs : list ndarray) : result ndarray :=
  concatenate (map atleast_2d arrs) 0.

(** [-a].  numpy refuses to negate a boolean array. *)
Definition negative (a : ndarray) : result ndarray :=
  match dtype_of a with
  | dt_bool => Raise TypeError
  | d => Ok (mk_ndarray (shape a) d (map (fun x => cast d (- x)) (data a)))
  end.

(** [np.ogrid[x, y]] for two ranges: a column and a row of indices, and their
    broadcast sum [a + b], the table of all [a[i] + b[j]]. *)
Definition ogrid (x y : ndarray) : ndarray * ndarray :=
  (mk_ndarray [len x; 1%nat] (dtype_of x) (data x),
   mk_ndarray [1%nat; len y] (dtype_of y) (data y)).

Definition add_col_row (a b : ndarray) : result ndarray :=
  match shape a, shape b with
  | [n; 1%nat], [1%nat; m] =>
      Ok (mk_ndarray [n; m] (promote (dtype_of a) (dtype_of b))
            (data (outer_with Z.add (promote (dtype_of a) (dtype_of b)) a b)))
  | _, _ => Raise ValueError_broadcast
  end.

(** [vals[indx]] with an integer index array: each index is looked up in the
    1D array [vals], a negative one counting from the end, and one out of
    bounds raises IndexError. *)
Definition index1 (vals : ndarray) (ix : Z) : result Z :=
  let n := Z.of_nat (len vals) in
  if (0 <=? ix) && (ix <? n) then Ok (nth (Z.to_nat ix) (data vals) 0)
  else if (- n <=? ix) && (ix <? 0) then Ok (nth (Z.to_nat (ix + n)) (data vals) 0)
  else Raise IndexError.

Fixpoint mapM {A B} (f : A -> result B) (l : list A) : result (list B) :=
  match l with
  | [] => Ok []
  | x :: l' => y <- f x ;; ys <- mapM f l' ;; Ok (y :: ys)
  end.

Definition take (vals indx : ndarray) : result ndarray :=
  if (ndim vals =? 1)%nat then
    d <- mapM (index1 vals) (data indx) ;;
    Ok (mk_ndarray (shape indx) (dtype_of vals) d)
  else Raise IndexError.

(** [np.outer(a, b)]: both arguments are flattened. *)
Definition outer (a b : ndarray) : ndarray :=
  outer_with Z.mul (promote (dtype_of a) (dtype_of b)) (ravel a) (ravel b).

(** [out[r0:r1, c0:c1] = v] on a 2D array: the slice is clipped to the array,
    [v] is broadcast to the slice (a dimension of length one is repeated) and
    converted to the element type of [out]. *)
Definition set_slice2 (out : ndarray) (r0 r1 c0 c1 : nat) (v : ndarray)
  : result ndarray :=
  let R := shape_at out 0 in
  let C := shape_at out 1 in
  let h := (Nat.min r1 R - r0)%nat in
  let w := (Nat.min c1 C - c0)%nat in
  let vh := shape_at v 0 in
  let vw := shape_at v 1 in
  if (ndim v =? 2)%nat
     && ((vh =? h) || (vh =? 1))%nat && ((vw =? w) || (vw =? 1))%nat then
    Ok (mk_ndarray (shape out) (dtype_of out)
          (map (fun idx =>
                  let i := (idx / C)%nat in
                  let j := (idx mod C)%nat in
                  if ((r0 <=? i) && (i <? r0 + h) && (c0 <=? j) && (j <? c0 + w))%nat
                  then cast (dtype_of out)
                         (get2 v (if (vh =? h)%nat then i - r0 else 0)%nat
                                 (if (vw =? w)%nat then j - c0 else 0)%nat)
                  else nth idx (data out) 0)
               (seq 0 (length (data out)))))
  else Raise ValueError_broadcast.


Definition array1 (d : dtype) (l : list Z) : ndarray :=
  mk_ndarray [length l] d (map (cast d) l).

Definition array2 (d : dtype) (rows : list (list Z)) : ndarray :=
  mk_ndarray [length rows; length (hd [] rows)] d (map (cast d) (concat rows)).

Definition tolist2 (a : ndarray) : list (list Z) :=
  map (fun i => chunk (shape_at a 1) i (data a)) (seq 0 (shape_at a 0)).

End Np.
Import Np.

(** ** tri, tril, triu *)

(** The second positional argument of [tri]: absent, a size, or (legacy) a
    string naming the element type. *)
Inductive tri_M :=
| M_None
| M_int (m : Z)
| M_str (d : dtype).

Definition tri (N : Z) (M : tri_M) (k : Z) (dt : option dtype) : ndarray :=
  let '(M, dt) :=
    match M with
    | M_None => (N, dt)
    | M_int m => (m, dt)
    | M_str d => (N, Some d)
    end in
  let m := greater_equal (subtract_outer (arange N) (arange M)) (- k) in
  match dt with
  | None => m
  | Some d => astype m d
  end.

(** [tril] and [triu] read [m.shape[0]] and [m.shape[1]]: an array of fewer
    than two dimensions raises IndexError. *)
Definition tril (m : ndarray) (k : Z) : result ndarray :=
  if (ndim m <? 2)%nat then Raise IndexError else
  multiply (tri (Z.of_nat (shape_at m 0)) (M_int (Z.of_nat (shape_at m 1))) k
              (Some (dtype_of m))) m.

Definition triu (m : ndarray) (k : Z) : result ndarray :=
  if (ndim m <? 2)%nat then Raise IndexError else
  multiply (scalar_rsub 1
              (tri (Z.of_nat (shape_at m 0)) (M_int (Z.of_nat (shape_at m 1)))
                 (k - 1) (Some (dtype_of m)))) m.

(** ** tril and triu on float64 arrays *)

(** The same lines of [tril] and [triu] for an array [m] of float64 elements,
    with IEEE arithmetic: the mask [tri(..., dtype='d')] holds 0.0 and 1.0 and
    is multiplied into [m] element by element. *)
Module F64.

Record farray := mk_farray {
  fshape : list nat;
  fdata : list float
}.

(** The 0/1 mask as a float64 array. *)
Definition of_mask (a : ndarray) : farray :=
  mk_farray (shape a) (map (fun z => if z =? 0 then 0%float else 1%float) (data a)).

Definition elementwise (f : float -> float -> float) (a b : farray) : result farray :=
  if list_eqb (fshape a) (fshape b) then
    Ok (mk_farray (fshape a)
          (map (fun p => f (fst p) (snd p)) (combine (fdata a) (fdata b))))
  else Raise ValueError_broadcast.

Definition multiply := elementwise PrimFloat.mul.
Definition add := elementwise PrimFloat.add.

Definition scalar_rsub (s : float) (a : farray) : farray :=
  mk_farray (fshape a) (map (fun x => PrimFloat.sub s x) (fdata a)).

Definition tril (m : farray) (k : Z) : result farray :=
  if (length (fshape m) <? 2)%nat then Raise IndexError else
  multiply (of_mask (tri (Z.of_nat (nth 0 (fshape m) 0%nat))
                         (M_int (Z.of_nat (nth 1 (fshape m) 0%nat))) k
                         (Some dt_float))) m.

Definition triu (m : farray) (k : Z) : result farray :=
  if (length (fshape m) <? 2)%nat then Raise IndexError else
  multiply (scalar_rsub 1%float
              (of_mask (tri (Z.of_nat (nth 0 (fshape m) 0%nat))
                            (M_int (Z.of_nat (nth 1 (fshape m) 0%nat))) (k - 1)
                            (Some dt_float)))) m.

(** [a[i, j]] and the elementwise comparison [a == b]. *)
Definition fget2 (a : farray) (i j : nat) : float :=
  nth (i * nth 1 (fshape a) 0%nat + j) (fdata a) 0%float.

Definition equal (a b : farray) : list bool :=
  map (fun p => PrimFloat.eqb (fst p) (snd p)) (combine (fdata a) (fdata b)).

(** [[1., inf], [0., 1.]] *)
Definition m_inf : farray :=
  mk_farray [2%nat; 2%nat] [1%float; infinity; 0%float; 1%float].

End F64.

(** ** toeplitz, hankel *)

Definition toeplitz (c : ndarray) (r : option ndarray) : result ndarray :=
  let c := ravel c in
  let r := match r with
           | None => conjugate c
           | Some r => ravel r
           end in
  vals <- concatenate [slice_rev_tail r; c] 0 ;;
  let '(a, b) := ogrid (arange (Z.of_nat (len c)))
                       (arange_down (Z.of_nat (len r) - 1) (-1)) in
  indx <- add_col_row a b ;;
  take vals indx.

Definition hankel (c : ndarray) (r : option ndarray) : result ndarray :=
  let c := ravel c in
  let r := match r with
           | None => zeros_like c
           | Some r => ravel r
           end in
  vals <- concatenate [c; slice_tail r] 0 ;;
  let '(a, b) := ogrid (arange (Z.of_nat (len c))) (arange (Z.of_nat (len r))) in
  indx <- add_col_row a b ;;
  take vals indx.

(** ** circulant *)

(** The second range of [np.ogrid[0:len(c), 0:-len(c):-1]] runs from 0 down to
    [-(len(c) - 1)]; the negative indices of [indx] count from the end of
    [c]. *)
Definition circulant (c : ndarray) : result ndarray :=
  let c := ravel c in
  let '(a, b) := ogrid (arange (Z.of_nat (len c)))
                       (arange_down 0 (- Z.of_nat (len c))) in
  indx <- add_col_row a b ;;
  take c indx.

(** ** hadamard *)

Section Hadamard.

(** [int(math.log(n, 2))] for [n >= 1].  The logarithm is computed in
    floating point by the C library; it is a parameter of the embedding. *)
Variable int_log2 : Z -> Z.

(** One step of Sylvester's construction:
    [np.vstack((np.hstack((H, H)), np.hstack((H, -H))))]. *)
Definition sylvester_step (H : ndarray) : result ndarray :=
  top <- hstack [H; H] ;;
  mH <- negative H ;;
  bottom <- hstack [H; mH] ;;
  vstack [top; bottom].

Fixpoint sylvester_loop (steps : nat) (H : ndarray) : result ndarray :=
  match steps with
  | O => Ok H
  | S steps' => H' <- sylvester_step H ;; sylvester_loop steps' H'
  end.

(** [2 ** lg2] is below 1 for a negative [lg2], as is [2 ^ lg2] here, and
    differs from every [n >= 1]. *)
Definition hadamard (n : Z) (dt : dtype) : result ndarray :=
  let lg2 := if n <? 1 then 0 else int_log2 n in
  if negb (2 ^ lg2 =? n) then Raise ValueError_hadamard
  else sylvester_loop (Z.to_nat lg2) (array2 dt [[1]]).

End Hadamard.

(** ** kron *)

(** Every array of the model is stored contiguously in row-major order, so the
    two reshapes that normalise the layout of [a] and [b] leave them as they
    are. *)
Definition contiguous (a : ndarray) : bool := true.

Definition kron (a b : ndarray) : result ndarray :=
  a <- (if negb (contiguous a) then reshape a (shape a) else Ok a) ;;
  b <- (if negb (contiguous b) then reshape b (shape b) else Ok b) ;;
  let o := outer a b in
  o <- reshape o (shape a ++ shape b) ;;
  blocks <- unstack o ;;
  o1 <- concatenate blocks 1 ;;
  blocks1 <- unstack o1 ;;
  concatenate blocks1 1.

(** ** block_diag *)

(** The placement loop: [out[r:r + rr, c:c + cc] = arrs[i]], then both offsets
    advance. *)
Fixpoint block_diag_place (arrs : list ndarray) (out : ndarray) (r c : nat)
  : result ndarray :=
  match arrs with
  | [] => Ok out
  | a :: rest =>
      let rr := shape_at a 0 in
      let cc := shape_at a 1 in
      out' <- set_slice2 out r (r + rr) c (c + cc) a ;;
      block_diag_place rest out' (r + rr) (c + cc)
  end.

(** The arguments are the blocks as arrays ([np.atleast_2d] converts each
    array-like first); the empty list literal is an empty float array. *)
Definition block_diag (arrs : list ndarray) : result ndarray :=
  let arrs := match arrs with
              | [] => [array1 dt_float []]
              | _ => arrs
              end in
  let arrs := map atleast_2d arrs in
  let bad_args :=
    filter (fun k => (2 <? ndim (nth k arrs (zeros [] dt_float)))%nat)
           (seq 0 (length arrs)) in
  match bad_args with
  | _ :: _ => Raise (ValueError_block_diag bad_args)
  | [] =>
      let shapes := map shape arrs in
      let out := zeros [sum_nat (map (fun s => nth 0 s 0%nat) shapes);
                        sum_nat (map (fun s => nth 1 s 0%nat) shapes)]
                       (dtype_of (hd (zeros [] dt_float) arrs)) in
      block_diag_place arrs out 0 0
  end.

(** ** Notions the properties are stated with *)

(** The transpose of a 2D array and the exact matrix product over the
    integers. *)
Definition sum_Z (l : list Z) : Z := fold_right Z.add 0 l.

Definition transpose (a : ndarray) : ndarray :=
  mk_ndarray [shape_at a 1; shape_at a 0] (dtype_of a)
    (flat_map (fun j => map (fun i => get2 a i j) (seq 0 (shape_at a 0)))
              (seq 0 (shape_at a 1))).

Definition dot_entry (a b : ndarray) (i j : nat) : Z :=
  sum_Z (map (fun k => get2 a i k * get2 b k j) (seq 0 (shape_at a 1))).

Definition dot (a b : ndarray) : ndarray :=
  mk_ndarray [shape_at a 0; shape_at b 1] (promote (dtype_of a) (dtype_of b))
    (flat_map (fun i => map (fun j => dot_entry a b i j) (seq 0 (shape_at b 1)))
              (seq 0 (shape_at a 0))).

(** [n * I_n] as an integer array. *)
Definition scaled_identity (n : nat) : ndarray :=
  mk_ndarray [n; n] dt_int
    (flat_map (fun i => map (fun j => if (i =? j)%nat then Z.of_nat n else 0)
                            (seq 0 n))
              (seq 0 n)).

(** The doubling of the specification, entry by entry: the block matrix
    [[H, H], [H, -H]] built from an [s x s] matrix with entries [h]. *)
Definition sylvester_entry (s : nat) (h : nat -> nat -> Z) (i j : nat) : Z :=
  if (i <? s)%nat then
    if (j <? s)%nat then h i j else h i (j - s)%nat
  else
    if (j <? s)%nat then h (i - s)%nat j else - h (i - s)%nat (j - s)%nat.

(** The inner product of rows [i] and [i'] of a matrix with [n] columns. *)
Definition row_dot (h : nat -> nat -> Z) (n i i' : nat) : Z :=
  sum_Z (map (fun k => h i k * h i' k) (seq 0 n)).

Definition pm1 (v : Z) : Prop := v = 1 \/ v = -1.

(** What Sylvester's construction maintains: an [s x s] array of element
    type [d] with entries 1 and -1 and pairwise orthogonal rows. *)
Definition hadamard_inv (d : dtype) (s : nat) (H : ndarray) : Prop :=
  shape H = [s; s] /\ dtype_of H = d /\ length (data H) = (s * s)%nat
  /\ (forall i j, (i < s)%nat -> (j < s)%nat -> pm1 (get2 H i j))
  /\ (forall i i', (i < s)%nat -> (i' < s)%nat ->
        row_dot (get2 H) s i i' = if (i =? i')%nat then Z.of_nat s else 0).

(** [s * b] of a scalar taken from an array of element type [d] and an
    array [b]. *)
Definition scalar_times (d : dtype) (s : Z) (b : ndarray) : ndarray :=
  mk_ndarray (shape b) (promote d (dtype_of b))
    (map (fun y => cast (promote d (dtype_of b)) (s * y)) (data b)).

(** The [P x Q] block of a 2D array whose top left corner is [(r0, c0)]. *)
Definition block (a : ndarray) (r0 c0 P Q : nat) : list (list Z) :=
  map (fun p => map (fun q => get2 a (r0 + p) (c0 + q)) (seq 0 Q)) (seq 0 P).

Definition is_pow2 (n : Z) : Prop := exists k, 0 <= k /\ n = 2 ^ k.

(** The blocks [block_diag] works with, each normalised to 2D, the offsets of
    the [k]-th block (the extents of the blocks before it, summed) and the
    region it covers. *)
Definition normalize_blocks (arrs : list ndarray) : list ndarray :=
  map atleast_2d (match arrs with
                  | [] => [array1 dt_float []]
                  | _ => arrs
                  end).

Definition row_offset (bs : list ndarray) (k : nat) : nat :=
  sum_nat (map (fun a => shape_at a 0) (firstn k bs)).

Definition col_offset (bs : list ndarray) (k : nat) : nat :=
  sum_nat (map (fun a => shape_at a 1) (firstn k bs)).

Definition no_block : ndarray := zeros [] dt_float.

Definition in_block (bs : list ndarray) (k i j : nat) : Prop :=
  (row_offset bs k <= i < row_offset bs k + shape_at (nth k bs no_block) 0)%nat
  /\ (col_offset bs k <= j < col_offset bs k + shape_at (nth k bs no_block) 1)%nat.

(** A 4 x 3 array used as a running example. *)
Definition m43 : ndarray :=
  array2 dt_int [[1; 2; 3]; [4; 5; 6]; [7; 8; 9]; [10; 11; 12]].

(** * Properties *)

(** ** Lists laid out in rows of equal length *)

Section Rows.
Context {A B : Type}.
Variable f : A -> list B.
Variable n : nat.

Lemma length_flat_map_rows (l : list A) :
  (forall x, In x l -> length (f x) = n) ->
  length (flat_map f l) = (length l * n)%nat.
Proof.
  induction l as [|x l IH]; intros Hn; simpl; [reflexivity|].
  rewrite length_app, Hn by (simpl; auto).
  rewrite IH by (intros y Hy; apply Hn; simpl; auto). reflexivity.
Qed.

Lemma nth_flat_map_rows (l : list A) (i j : nat) (dx : A) (d : B) :
  (forall x, In x l -> length (f x) = n) ->
  (i < length l)%nat -> (j < n)%nat ->
  nth (i * n + j) (flat_map f l) d = nth j (f (nth i l dx)) d.
Proof.
  revert i; induction l as [|x l IH]; intros i Hn Hi Hj; simpl in *; [lia|].
  destruct i as [|i].
  - simpl. rewrite app_nth1; [reflexivity|]. rewrite Hn by auto. exact Hj.
  - rewrite app_nth2 by (rewrite Hn by auto; simpl; lia).
    rewrite Hn by auto.
    replace (S i * n + j - n)%nat with (i * n + j)%nat by (simpl; lia).
    apply IH; auto; lia.
Qed.
End Rows.

Lemma map_over_flat_map {A B C} (g : B -> C) (f : A -> list B) (l : list A) :
  map g (flat_map f l) = flat_map (fun x => map g (f x)) l.
Proof.
  induction l as [|x l IH]; simpl; [reflexivity|].
  rewrite map_app, IH. reflexivity.
Qed.

Lemma flat_map_agree {A B} (f g : A -> list B) (l : list A) :
  (forall x, In x l -> f x = g x) -> flat_map f l = flat_map g l.
Proof.
  induction l as [|x l IH]; intros H; simpl; [reflexivity|].
  rewrite H by (simpl; auto).
  rewrite IH by (intros y Hy; apply H; simpl; auto). reflexivity.
Qed.

Lemma nth_seq_0 (n i : nat) : (i < n)%nat -> nth i (seq 0 n) 0%nat = i.
Proof. intros H. rewrite seq_nth; auto. Qed.

Lemma nth_map_in {A B} (g : A -> B) (l : list A) (i : nat) (d : B) (d' : A) :
  (i < length l)%nat -> nth i (map g l) d = g (nth i l d').
Proof.
  intros H. rewrite (nth_indep _ d (g d')) by (rewrite length_map; exact H).
  apply map_nth.
Qed.

Lemma nth_chunk (n i j : nat) (l : list Z) (d : Z) :
  (j < n)%nat -> nth j (chunk n i l) d = nth (i * n + j) l d.
Proof.
  intros Hj. unfold chunk.
  destruct (Nat.lt_ge_cases (i * n + j) (length l)) as [Hlt|Hge].
  - rewrite <- (firstn_skipn (i * n) l) at 2.
    rewrite app_nth2 by (rewrite length_firstn; lia).
    rewrite length_firstn, Nat.min_l by lia.
    replace (i * n + j - i * n)%nat with j by lia.
    rewrite <- (firstn_skipn n (skipn (i * n) l)) at 2.
    rewrite app_nth1; [reflexivity|].
    rewrite length_firstn, length_skipn. lia.
  - rewrite (nth_overflow l) by lia.
    apply nth_overflow. rewrite length_firstn, length_skipn. lia.
Qed.

Lemma length_chunk (n i : nat) (l : list Z) :
  ((i + 1) * n <= length l)%nat -> length (chunk n i l) = n.
Proof.
  intros H. unfold chunk. rewrite length_firstn, length_skipn. lia.
Qed.

(** ** Element types *)

Ltac int64_consts :=
  change (2 ^ 63) with 9223372036854775808 in *;
  change (2 ^ 64) with 18446744073709551616 in *.

Lemma wrap64_small (z : Z) : - 2 ^ 63 <= z < 2 ^ 63 -> wrap64 z = z.
Proof.
  intros H. unfold wrap64. int64_consts. rewrite Z.mod_small; lia.
Qed.

Lemma cast_0 (d : dtype) : cast d 0 = 0.
Proof. destruct d; reflexivity. Qed.

Lemma cast_1 (d : dtype) : cast d 1 = 1.
Proof. destruct d; reflexivity. Qed.

Lemma cast_b2z (d : dtype) (b : bool) : cast d (Z.b2z b) = Z.b2z b.
Proof. destruct b; [apply cast_1 | apply cast_0]. Qed.

Lemma cast_idem (d : dtype) (z : Z) : cast d (cast d z) = cast d z.
Proof.
  destruct d; simpl; [destruct (z =? 0); reflexivity | | reflexivity].
  apply wrap64_small. unfold wrap64. int64_consts.
  pose proof (Z.mod_pos_bound (z + 9223372036854775808) 18446744073709551616).
  lia.
Qed.

(** ** tri *)

Lemma length_arange (n : Z) : length (data (arange n)) = Z.to_nat n.
Proof. cbn [arange data]. rewrite length_map, length_seq. reflexivity. Qed.

Lemma nth_arange (n : Z) (i : nat) (d : Z) :
  Z.of_nat i < n -> nth i (data (arange n)) d = Z.of_nat i.
Proof.
  intros H. cbn [arange data].
  rewrite (nth_map_in _ _ _ _ 0%nat) by (rewrite length_seq; lia).
  rewrite nth_seq_0 by lia. reflexivity.
Qed.

Lemma tri_data (N M k : Z) (dt : option dtype) :
  data (tri N (M_int M) k dt) =
  flat_map (fun x => map (fun y => Z.b2z (- k <=? wrap64 (x - y)))
                         (data (arange M)))
           (data (arange N)).
Proof.
  assert (Hm : data (greater_equal (subtract_outer (arange N) (arange M)) (- k))
               = flat_map (fun x => map (fun y => Z.b2z (- k <=? wrap64 (x - y)))
                                        (data (arange M)))
                          (data (arange N))).
  { cbn [greater_equal subtract_outer outer_with data dtype_of arange promote cast].
    rewrite map_over_flat_map.
    apply flat_map_ext. intros x. rewrite map_map. reflexivity. }
  unfold tri. destruct dt as [d|]; [|exact Hm].
  cbn [astype data]. rewrite Hm, map_over_flat_map.
  apply flat_map_ext. intros x. rewrite map_map.
  apply map_ext. intros y. apply cast_b2z.
Qed.

Lemma tri_shape (N M k : Z) (dt : option dtype) :
  shape (tri N (M_int M) k dt) = [Z.to_nat N; Z.to_nat M].
Proof. unfold tri. destruct dt; reflexivity. Qed.

Lemma tri_entry (N M k : Z) (dt : option dtype) (i j : nat) :
  N < 2 ^ 63 -> M < 2 ^ 63 ->
  Z.of_nat i < N -> Z.of_nat j < M ->
  get2 (tri N (M_int M) k dt) i j
  = Z.b2z (Z.of_nat j <=? Z.of_nat i + k).
Proof.
  intros HN HM Hi Hj. unfold get2, shape_at.
  rewrite tri_shape, tri_data. cbn [nth].
  pose proof (length_arange M) as HlenM.
  rewrite (nth_flat_map_rows _ (Z.to_nat M) _ i j 0).
  - rewrite nth_arange by lia.
    rewrite (nth_map_in _ _ _ _ 0) by lia.
    rewrite nth_arange by lia.
    rewrite wrap64_small by (int64_consts; lia).
    f_equal. apply Bool.eq_iff_eq_true. rewrite !Z.leb_le. lia.
  - intros x _. rewrite length_map. exact HlenM.
  - rewrite length_arange. lia.
  - lia.
Qed.

(** ** Elementwise operations on 2D arrays *)

Lemma list_eqb_refl (s : list nat) : list_eqb s s = true.
Proof. unfold list_eqb. destruct (list_eq_dec Nat.eq_dec s s); congruence. Qed.

Lemma list_eqb_eq (s t : list nat) : list_eqb s t = true -> s = t.
Proof. unfold list_eqb. destruct (list_eq_dec Nat.eq_dec s t); congruence. Qed.

Lemma flat_index_lt (R C i j : nat) :
  (i < R)%nat -> (j < C)%nat -> (i * C + j < R * C)%nat.
Proof. intros Hi Hj. nia. Qed.

Lemma nth_combine (l1 l2 : list Z) (idx : nat) :
  (idx < length l1)%nat -> (idx < length l2)%nat ->
  nth idx (combine l1 l2) (0, 0) = (nth idx l1 0, nth idx l2 0).
Proof.
  revert l2 idx. induction l1 as [|x l1 IH]; intros [|y l2] [|idx] H1 H2;
    simpl in *; try lia; [reflexivity|].
  apply IH; lia.
Qed.

Lemma nth_combine_map (f : Z * Z -> Z) (l1 l2 : list Z) (idx : nat) :
  (idx < length l1)%nat -> (idx < length l2)%nat ->
  nth idx (map f (combine l1 l2)) 0 = f (nth idx l1 0, nth idx l2 0).
Proof.
  intros H1 H2.
  rewrite (nth_map_in _ _ _ _ (0, 0)) by (rewrite length_combine; lia).
  rewrite nth_combine by assumption. reflexivity.
Qed.

(** Two row-major lists of [R * C] elements that agree at every [(i, j)]
    are equal. *)
Lemma rows_ext (R C : nat) (l1 l2 : list Z) :
  length l1 = (R * C)%nat -> length l2 = (R * C)%nat ->
  (forall i j, (i < R)%nat -> (j < C)%nat ->
               nth (i * C + j) l1 0 = nth (i * C + j) l2 0) ->
  l1 = l2.
Proof.
  intros H1 H2 H. apply (nth_ext _ _ 0 0); [congruence|].
  intros idx Hidx. rewrite H1 in Hidx.
  assert (HC : (C <> 0)%nat) by (intros ->; lia).
  rewrite (Nat.div_mod_eq idx C), (Nat.mul_comm C).
  apply H.
  - apply Nat.Div0.div_lt_upper_bound. lia.
  - apply Nat.mod_upper_bound. exact HC.
Qed.

Lemma elementwise_ok (f : Z -> Z -> Z) (a b : ndarray) :
  shape a = shape b ->
  elementwise f a b =
  Ok (mk_ndarray (shape a) (promote (dtype_of a) (dtype_of b))
        (map (fun p => cast (promote (dtype_of a) (dtype_of b)) (f (fst p) (snd p)))
             (combine (data a) (data b)))).
Proof.
  intros H. unfold elementwise. rewrite H, list_eqb_refl. reflexivity.
Qed.

Lemma promote_idem (d : dtype) : promote d d = d.
Proof. destruct d; reflexivity. Qed.

Lemma promote_int_absorb (d : dtype) : promote (promote dt_int d) d = promote dt_int d.
Proof. destruct d; reflexivity. Qed.

Lemma promote_absorb_int (d : dtype) : promote d (promote dt_int d) = promote dt_int d.
Proof. destruct d; reflexivity. Qed.

(** A value of an element type is unchanged by the conversion [1 - mask]
    forces on it. *)
Lemma cast_promote_int (d : dtype) (v : Z) :
  cast d v = v -> cast (promote dt_int d) v = v.
Proof.
  destruct d; simpl; auto.
  destruct (v =? 0); intros <-; reflexivity.
Qed.

Lemma wf_nth (a : ndarray) (idx : nat) :
  wf a -> cast (dtype_of a) (nth idx (data a) 0) = nth idx (data a) 0.
Proof.
  intros [_ Hv].
  destruct (Nat.lt_ge_cases idx (length (data a))) as [Hlt|Hge].
  - unfold values_ok in Hv. rewrite Forall_forall in Hv. apply Hv, nth_In, Hlt.
  - rewrite nth_overflow by lia. apply cast_0.
Qed.

(** ** tril and triu *)

Section Triangles.
Variable m : ndarray.
Variables R C : nat.
Hypothesis m_wf : wf m.
Hypothesis m_shape : shape m = [R; C].
Hypothesis R_small : Z.of_nat R < 2 ^ 63.
Hypothesis C_small : Z.of_nat C < 2 ^ 63.

Let mask (k : Z) (dt : option dtype) : ndarray :=
  tri (Z.of_nat (shape_at m 0)) (M_int (Z.of_nat (shape_at m 1))) k dt.

Lemma mask_shape k dt : shape (mask k dt) = [R; C].
Proof.
  unfold mask, shape_at. rewrite tri_shape, m_shape. cbn [nth].
  rewrite !Nat2Z.id. reflexivity.
Qed.

Lemma mask_length k dt : length (data (mask k dt)) = (R * C)%nat.
Proof.
  unfold mask. rewrite tri_data.
  rewrite (length_flat_map_rows _ (length (data (arange (Z.of_nat (shape_at m 1)))))).
  - rewrite !length_arange. unfold shape_at. rewrite m_shape. cbn [nth].
    rewrite !Nat2Z.id. reflexivity.
  - intros x _. apply length_map.
Qed.

Lemma mask_nth k dt i j :
  (i < R)%nat -> (j < C)%nat ->
  nth (i * C + j) (data (mask k dt)) 0 = Z.b2z (Z.of_nat j <=? Z.of_nat i + k).
Proof.
  intros Hi Hj.
  pose proof (tri_entry (Z.of_nat (shape_at m 0)) (Z.of_nat (shape_at m 1)) k dt i j)
    as H.
  unfold get2, shape_at in H. rewrite tri_shape in H.
  unfold shape_at in *. rewrite m_shape in H. cbn [nth] in H.
  rewrite Nat2Z.id in H. unfold mask, shape_at. rewrite m_shape. cbn [nth].
  apply H; lia.
Qed.

Lemma m_length : length (data m) = (R * C)%nat.
Proof.
  destruct m_wf as [H _]. rewrite H, m_shape. simpl. lia.
Qed.

Lemma m_ndim : (ndim m <? 2)%nat = false.
Proof. unfold ndim. rewrite m_shape. reflexivity. Qed.

(** [tril(m, k)] keeps the elements with [j <= i + k] and zeroes the rest. *)
Lemma tril_entries (k : Z) :
  exists L, tril m k = Ok L /\ shape L = [R; C] /\ dtype_of L = dtype_of m
    /\ length (data L) = (R * C)%nat
    /\ forall i j, (i < R)%nat -> (j < C)%nat ->
         get2 L i j = if Z.of_nat j <=? Z.of_nat i + k then get2 m i j else 0.
Proof.
  unfold tril. rewrite m_ndim. fold (mask k (Some (dtype_of m))).
  unfold multiply. rewrite elementwise_ok by (rewrite mask_shape, m_shape; reflexivity).
  eexists. split; [reflexivity|]. cbn [shape dtype_of data].
  assert (Hd : dtype_of (mask k (Some (dtype_of m))) = dtype_of m) by reflexivity.
  rewrite Hd, promote_idem, mask_shape.
  repeat split.
  - rewrite length_map, length_combine, mask_length, m_length. lia.
  - intros i j Hi Hj. unfold get2, shape_at. cbn [shape data nth].
    rewrite m_shape. cbn [nth].
    pose proof (flat_index_lt R C i j Hi Hj) as Hidx.
    rewrite nth_combine_map by (rewrite ?mask_length, ?m_length; exact Hidx).
    cbn [fst snd]. rewrite mask_nth by assumption.
    destruct (Z.of_nat j <=? Z.of_nat i + k); cbn [Z.b2z].
    + rewrite Z.mul_1_l. apply wf_nth, m_wf.
    + rewrite Z.mul_0_l. apply cast_0.
Qed.

(** [triu(m, k)] keeps the elements with [j >= i + k] and zeroes the rest:
    its mask is the complement of the [tri] mask of [k - 1]. *)
Lemma triu_entries (k : Z) :
  exists U, triu m k = Ok U /\ shape U = [R; C]
    /\ dtype_of U = promote dt_int (dtype_of m)
    /\ length (data U) = (R * C)%nat
    /\ forall i j, (i < R)%nat -> (j < C)%nat ->
         get2 U i j = if Z.of_nat j <=? Z.of_nat i + (k - 1) then 0 else get2 m i j.
Proof.
  unfold triu. rewrite m_ndim. fold (mask (k - 1) (Some (dtype_of m))).
  unfold multiply.
  rewrite elementwise_ok
    by (cbn [scalar_rsub shape]; rewrite mask_shape, m_shape; reflexivity).
  eexists. split; [reflexivity|]. cbn [shape dtype_of data scalar_rsub].
  assert (Hd : dtype_of (mask (k - 1) (Some (dtype_of m))) = dtype_of m) by reflexivity.
  rewrite Hd, promote_int_absorb, mask_shape.
  repeat split.
  - rewrite length_map, length_combine, length_map, mask_length, m_length. lia.
  - intros i j Hi Hj. unfold get2, shape_at. cbn [shape data nth].
    rewrite m_shape. cbn [nth].
    pose proof (flat_index_lt R C i j Hi Hj) as Hidx.
    rewrite nth_combine_map
      by (rewrite ?length_map, ?mask_length, ?m_length; exact Hidx).
    cbn [fst snd].
    rewrite (nth_map_in _ _ _ _ 0) by (rewrite mask_length; exact Hidx).
    rewrite mask_nth by assumption.
    destruct (Z.of_nat j <=? Z.of_nat i + (k - 1)); cbn [Z.b2z].
    + change (1 - 1) with 0. rewrite cast_0, Z.mul_0_l. apply cast_0.
    + change (1 - 0) with 1. rewrite cast_1, Z.mul_1_l.
      apply cast_promote_int, wf_nth, m_wf.
Qed.
End Triangles.

(** ** The claims on tri, tril and triu *)

(** C1, as the specification words it, fails: with [k = 0] the entry above
    the diagonal at [(0, 1)] satisfies [i <= j + k] and yet is 0. *)
Lemma tri_upper_entry_is_zero :
  ~ (get2 (tri 2 (M_int 2) 0 None) 0 1 = 1 <-> (0 <= 1 + 0)).
Proof.
  intros [_ H]. assert (H1 : 0 <= 1 + 0) by lia.
  apply H in H1. vm_compute in H1. discriminate H1.
Qed.

(** C1 (amended): for sizes [0 <= N, M] that an index can hold, [tri(N, M, k)]
    has shape [(N, M)] and its entry [(i, j)] is 1 if and only if
    [j <= i + k] (that is, [i - j >= -k]), and 0 otherwise. *)
Theorem tri_spec (N M k : Z) (dt : option dtype) :
  0 <= N < 2 ^ 63 -> 0 <= M < 2 ^ 63 ->
  map Z.of_nat (shape (tri N (M_int M) k dt)) = [N; M]
  /\ forall i j : nat, Z.of_nat i < N -> Z.of_nat j < M ->
       (get2 (tri N (M_int M) k dt) i j = 1 <-> Z.of_nat j <= Z.of_nat i + k)
       /\ (get2 (tri N (M_int M) k dt) i j = 0 <-> ~ Z.of_nat j <= Z.of_nat i + k).
Proof.
  intros HN HM. split.
  - rewrite tri_shape. cbn [map]. rewrite !Z2Nat.id by lia. reflexivity.
  - intros i j Hi Hj. rewrite tri_entry by lia.
    destruct (Z.leb_spec (Z.of_nat j) (Z.of_nat i + k)); cbn [Z.b2z];
      split; split; intros; try lia; try discriminate.
Qed.

Lemma tri_spec_witness :
  map Z.of_nat (shape (tri 3 (M_int 5) 2 (Some dt_int))) = [3; 5]
  /\ (get2 (tri 3 (M_int 5) 2 (Some dt_int)) 0 2 = 1 <-> 2 <= 0 + 2)
  /\ (get2 (tri 3 (M_int 5) 2 (Some dt_int)) 0 3 = 0 <-> ~ 3 <= 0 + 2).
Proof.
  assert (H3 : 0 <= 3 < 2 ^ 63) by (int64_consts; lia).
  assert (H5 : 0 <= 5 < 2 ^ 63) by (int64_consts; lia).
  destruct (tri_spec 3 5 2 (Some dt_int) H3 H5) as [Hs He].
  split; [exact Hs|]. split.
  - apply (He 0%nat 2%nat); simpl; lia.
  - apply (He 0%nat 3%nat); simpl; lia.
Defined.

(** C10: for a well-formed 2D boolean or integer array [m],
    [tril(m, 0) + triu(m, 1)] has the shape and the elements of [m], the main
    diagonal coming from [tril] alone ([triu(m, 1)] is zero on it), and
    [tril(m, 0)] and [triu(m, 0)] both keep the main diagonal of [m].  On a
    float64 array the mask is multiplied into the elements, so an infinity
    above the diagonal is not zeroed: for [[1., inf], [0., 1.]] the entry
    [(0, 1)] of [tril(m, 0)] is [0.0 * inf], a NaN, and
    [tril(m, 0) + triu(m, 1)] differs from [m] there. *)
Theorem tril_triu_partition :
  (forall (m : ndarray) (R C : nat),
     wf m -> shape m = [R; C] -> dtype_of m <> dt_float ->
     Z.of_nat R < 2 ^ 63 -> Z.of_nat C < 2 ^ 63 ->
     exists L U S U0,
       tril m 0 = Ok L /\ triu m 1 = Ok U /\ add L U = Ok S
       /\ shape S = shape m /\ data S = data m
       /\ triu m 0 = Ok U0
       /\ forall i, (i < R)%nat -> (i < C)%nat ->
            get2 L i i = get2 m i i /\ get2 U i i = 0 /\ get2 U0 i i = get2 m i i)
  /\ (exists L U S,
        F64.tril F64.m_inf 0 = Ok L /\ F64.triu F64.m_inf 1 = Ok U
        /\ F64.add L U = Ok S
        /\ PrimFloat.is_nan (F64.fget2 L 0 1) = true
        /\ F64.equal S F64.m_inf = [true; false; true; true]).
Proof.
  split.
  2:{ do 3 eexists. repeat split; vm_compute; reflexivity. }
  intros m R C Hwf Hs _ HR HC.
  destruct (tril_entries m R C Hwf Hs HR HC 0) as (L & HL & HLs & HLd & HLn & HLe).
  destruct (triu_entries m R C Hwf Hs HR HC 1) as (U & HU & HUs & HUd & HUn & HUe).
  destruct (triu_entries m R C Hwf Hs HR HC 0) as (U0 & HU0 & _ & _ & _ & HU0e).
  pose proof (m_length m R C Hwf Hs) as Hmn.
  exists L, U. eexists. exists U0.
  split; [exact HL|]. split; [exact HU|].
  unfold add. rewrite elementwise_ok by congruence.
  split; [reflexivity|]. cbn [shape data].
  split; [congruence|]. split.
  - apply (rows_ext R C); [rewrite length_map, length_combine; lia | exact Hmn |].
    intros i j Hi Hj. pose proof (flat_index_lt R C i j Hi Hj) as Hidx.
    rewrite nth_combine_map by lia. cbn [fst snd].
    specialize (HLe i j Hi Hj). specialize (HUe i j Hi Hj).
    unfold get2, shape_at in HLe, HUe. rewrite HLs in HLe. rewrite HUs in HUe.
    rewrite Hs in HLe, HUe. cbn [nth] in HLe, HUe.
    rewrite HLe, HUe, HLd, HUd, promote_absorb_int.
    replace (Z.of_nat i + (1 - 1)) with (Z.of_nat i + 0) by lia.
    destruct (Z.of_nat j <=? Z.of_nat i + 0).
    + rewrite Z.add_0_r. apply cast_promote_int, wf_nth, Hwf.
    + rewrite Z.add_0_l. apply cast_promote_int, wf_nth, Hwf.
  - split; [exact HU0|]. intros i Hi Hi'.
    rewrite (HLe i i), (HUe i i), (HU0e i i) by assumption.
    replace (Z.of_nat i <=? Z.of_nat i + 0) with true by (symmetry; apply Z.leb_le; lia).
    replace (Z.of_nat i <=? Z.of_nat i + (1 - 1)) with true
      by (symmetry; apply Z.leb_le; lia).
    replace (Z.of_nat i <=? Z.of_nat i + (0 - 1)) with false
      by (symmetry; apply Z.leb_gt; lia).
    auto.
Qed.

Lemma m43_wf : wf m43.
Proof. split; [reflexivity|]. repeat constructor. Qed.

Lemma tril_triu_partition_witness :
  exists L U S U0,
    tril m43 0 = Ok L /\ triu m43 1 = Ok U /\ add L U = Ok S
    /\ shape S = shape m43 /\ data S = data m43
    /\ triu m43 0 = Ok U0
    /\ forall i, (i < 4)%nat -> (i < 3)%nat ->
         get2 L i i = get2 m43 i i /\ get2 U i i = 0 /\ get2 U0 i i = get2 m43 i i.
Proof.
  apply (proj1 tril_triu_partition m43 4%nat 3%nat).
  - exact m43_wf.
  - reflexivity.
  - discriminate.
  - int64_consts. simpl. lia.
  - int64_consts. simpl. lia.
Defined.

(** ** Concatenation along the first axis *)

Lemma cast_promote_l (d1 d2 : dtype) (v : Z) :
  cast d1 v = v -> cast (promote d1 d2) v = v.
Proof.
  destruct d1, d2; simpl; auto; destruct (v =? 0); intros <-; reflexivity.
Qed.

Lemma cast_promote_r (d1 d2 : dtype) (v : Z) :
  cast d2 v = v -> cast (promote d1 d2) v = v.
Proof.
  destruct d1, d2; simpl; auto; destruct (v =? 0); intros <-; reflexivity.
Qed.

Lemma map_cast_id (d : dtype) (l : list Z) :
  Forall (fun v => cast d v = v) l -> map (cast d) l = l.
Proof.
  intros H. rewrite <- (map_id l) at 2. apply map_ext_in.
  rewrite Forall_forall in H. exact H.
Qed.

Lemma chunk_all (l : list Z) (n : nat) : length l = n -> chunk n 0 l = l.
Proof. intros <-. unfold chunk. simpl. apply firstn_all. Qed.

Lemma concatenate_axis0_pair (a b : ndarray) (na nb : nat) (rest : list nat) :
  shape a = na :: rest -> shape b = nb :: rest ->
  length (data a) = prod_shape (shape a) ->
  length (data b) = prod_shape (shape b) ->
  values_ok a -> values_ok b ->
  concatenate [a; b] 0 =
  Ok (mk_ndarray ((na + nb)%nat :: rest)
        (promote (dtype_of a) (promote (dtype_of b) (dtype_of a)))
        (data a ++ data b)).
Proof.
  intros Ha Hb Hla Hlb Hva Hvb.
  unfold concatenate, same_off_axis, ndim, shape_at.
  cbn [forallb firstn skipn map flat_map fold_right sum_nat].
  rewrite Ha, Hb in *.
  cbn [length Nat.ltb Nat.leb skipn andb nth prod_shape fold_right app seq flat_map].
  rewrite !list_eqb_refl. cbn [andb].
  rewrite Nat.add_0_r, !app_nil_r, !chunk_all by assumption.
  rewrite !map_cast_id; [reflexivity | |].
  - eapply Forall_impl; [|exact Hvb]. cbv beta. intros v Hv.
    apply cast_promote_r, cast_promote_l, Hv.
  - eapply Forall_impl; [|exact Hva]. cbv beta. intros v Hv.
    apply cast_promote_l, Hv.
Qed.

(** ** Gathering through an index table *)

Lemma mapM_ok {A B} (f : A -> result B) (g : A -> B) (l : list A) :
  (forall x, In x l -> f x = Ok (g x)) -> mapM f l = Ok (map g l).
Proof.
  induction l as [|x l IH]; intros H; simpl; [reflexivity|].
  rewrite H by (simpl; auto). simpl.
  rewrite IH by (intros y Hy; apply H; simpl; auto). reflexivity.
Qed.

Lemma index1_in_range (vals : ndarray) (ix : Z) :
  0 <= ix < Z.of_nat (len vals) ->
  index1 vals ix = Ok (nth (Z.to_nat ix) (data vals) 0).
Proof.
  intros H. unfold index1.
  replace (0 <=? ix) with true by (symmetry; apply Z.leb_le; lia).
  replace (ix <? Z.of_nat (len vals)) with true by (symmetry; apply Z.ltb_lt; lia).
  reflexivity.
Qed.

Section Gather.
Variable vals : ndarray.
Variables xs ys : ndarray.
Variables n m nv : nat.
Hypothesis vals_shape : shape vals = [nv].
Hypothesis xs_shape : shape xs = [n].
Hypothesis ys_shape : shape ys = [m].
Hypothesis xs_int : dtype_of xs = dt_int.
Hypothesis ys_int : dtype_of ys = dt_int.
Hypothesis xs_length : length (data xs) = n.
Hypothesis ys_length : length (data ys) = m.
Hypothesis nv_small : Z.of_nat nv <= 2 ^ 63.
Hypothesis in_range :
  forall x y, In x (data xs) -> In y (data ys) -> 0 <= x + y < Z.of_nat nv.

(** [a, b = np.ogrid[xs, ys]; vals[a + b]] is the table of the values
    [vals[xs[i] + ys[j]]]. *)
Lemma gather_ogrid :
  (let '(a, b) := ogrid xs ys in indx <- add_col_row a b ;; take vals indx)
  = Ok (mk_ndarray [n; m] (dtype_of vals)
          (flat_map (fun x => map (fun y => nth (Z.to_nat (x + y)) (data vals) 0)
                                  (data ys))
                    (data xs))).
Proof.
  unfold ogrid, add_col_row, len. cbn [shape dtype_of data].
  rewrite xs_shape, ys_shape, xs_int, ys_int. cbn [nth promote bind].
  unfold take, ndim. rewrite vals_shape. cbn [length Nat.eqb shape data outer_with].
  rewrite (mapM_ok _ (fun ix => nth (Z.to_nat ix) (data vals) 0)).
  - cbn [bind]. f_equal. f_equal. rewrite map_over_flat_map.
    apply flat_map_agree. intros x Hx. rewrite map_map.
    apply map_ext_in. intros y Hy. cbn [cast].
    rewrite wrap64_small; [reflexivity|].
    specialize (in_range x y Hx Hy). int64_consts. lia.
  - intros ix Hix. apply in_flat_map in Hix. destruct Hix as (x & Hx & Hix).
    apply in_map_iff in Hix. destruct Hix as (y & <- & Hy).
    specialize (in_range x y Hx Hy). cbn [cast].
    rewrite wrap64_small by (int64_consts; lia).
    apply index1_in_range. unfold len. rewrite vals_shape. exact in_range.
Qed.

End Gather.

Lemma gather_entry (vdata xs ys : list Z) (i j : nat) :
  (i < length xs)%nat -> (j < length ys)%nat ->
  nth (i * length ys + j)
      (flat_map (fun x => map (fun y => nth (Z.to_nat (x + y)) vdata 0) ys) xs) 0
  = nth (Z.to_nat (nth i xs 0 + nth j ys 0)) vdata 0.
Proof.
  intros Hi Hj.
  rewrite (nth_flat_map_rows _ (length ys) _ i j 0)
    by (intros; rewrite ?length_map; lia).
  rewrite (nth_map_in _ _ _ _ 0) by lia. reflexivity.
Qed.

Lemma in_arange (n x : Z) : In x (data (arange n)) -> 0 <= x < n.
Proof.
  cbn [arange data]. intros H. apply in_map_iff in H.
  destruct H as (t & <- & Ht). apply in_seq in Ht. lia.
Qed.

Lemma length_arange_down (start stop : Z) :
  length (data (arange_down start stop)) = Z.to_nat (start - stop).
Proof. cbn [arange_down data]. rewrite length_map, length_seq. reflexivity. Qed.

Lemma in_arange_down (start stop y : Z) :
  In y (data (arange_down start stop)) -> stop < y <= start.
Proof.
  cbn [arange_down data]. intros H. apply in_map_iff in H.
  destruct H as (t & <- & Ht). apply in_seq in Ht. lia.
Qed.

Lemma nth_arange_down (start stop : Z) (j : nat) (d : Z) :
  Z.of_nat j < start - stop ->
  nth j (data (arange_down start stop)) d = start - Z.of_nat j.
Proof.
  intros H. cbn [arange_down data].
  rewrite (nth_map_in _ _ _ _ 0%nat) by (rewrite length_seq; lia).
  rewrite nth_seq_0 by lia. reflexivity.
Qed.

(** ** toeplitz *)

Section Toeplitz.
Variables c r : ndarray.
Variables nc nr : nat.
Hypothesis c_wf : wf c.
Hypothesis r_wf : wf r.
Hypothesis c_shape : shape c = [nc].
Hypothesis r_shape : shape r = [nr].
Hypothesis r_nonempty : (0 < nr)%nat.
Hypothesis sizes_small : Z.of_nat (nc + nr) <= 2 ^ 63.

Let vals : list Z := rev (tl (data r)) ++ data c.

Lemma toeplitz_c_length : length (data c) = nc.
Proof. destruct c_wf as [H _]. rewrite H, c_shape. simpl. lia. Qed.

Lemma toeplitz_r_length : length (data r) = nr.
Proof. destruct r_wf as [H _]. rewrite H, r_shape. simpl. lia. Qed.


Lemma toeplitz_value :
  toeplitz c (Some r) =
  Ok (mk_ndarray [nc; nr]
        (promote (dtype_of r) (promote (dtype_of c) (dtype_of r)))
        (flat_map
           (fun x => map (fun y => nth (Z.to_nat (x + y)) vals 0)
                         (data (arange_down (Z.of_nat nr - 1) (-1))))
           (data (arange (Z.of_nat nc))))).
Proof.
  unfold toeplitz, ravel, conjugate, len. cbn [shape dtype_of data].
  rewrite c_shape, r_shape. cbn [prod_shape fold_right nth].
  rewrite !Nat.mul_1_r.
  rewrite (concatenate_axis0_pair _ _ (Nat.pred nr) nc []).
  - cbn [bind].
    rewrite (gather_ogrid _ _ _ nc nr (Nat.pred nr + nc)).
    + reflexivity.
    + reflexivity.
    + cbn [arange shape]. rewrite Nat2Z.id. reflexivity.
    + cbn [arange_down shape].
      replace (Z.of_nat nr - 1 - -1) with (Z.of_nat nr) by lia.
      rewrite Nat2Z.id. reflexivity.
    + reflexivity.
    + reflexivity.
    + rewrite length_arange. lia.
    + rewrite length_arange_down. lia.
    + lia.
    + intros x y Hx Hy. apply in_arange in Hx. apply in_arange_down in Hy. lia.
  - unfold slice_rev_tail, len. reflexivity.
  - reflexivity.
  - unfold slice_rev_tail, len. cbn [shape data nth prod_shape fold_right].
    rewrite length_rev. pose proof toeplitz_r_length as H.
    destruct (data r); simpl in *; lia.
  - cbn [shape data prod_shape fold_right]. rewrite toeplitz_c_length. lia.
  - destruct r_wf as [_ H]. unfold values_ok in *.
    cbn [slice_rev_tail dtype_of data].
    apply Forall_rev. destruct (data r); [constructor|].
    inversion H; assumption.
  - destruct c_wf as [_ H]. exact H.
Qed.

Lemma toeplitz_entries :
  exists A, toeplitz c (Some r) = Ok A /\ shape A = [nc; nr]
    /\ forall i j, (i < nc)%nat -> (j < nr)%nat ->
         get2 A i j = nth ((nr - 1) - j + i) vals 0.
Proof.
  eexists. split; [apply toeplitz_value|]. split; [reflexivity|].
  intros i j Hi Hj. unfold get2, shape_at. cbn [shape data nth].
  replace (i * nr + j)%nat
    with (i * length (data (arange_down (Z.of_nat nr - 1) (-1))) + j)%nat
    by (rewrite length_arange_down; f_equal; f_equal; lia).
  rewrite gather_entry by (rewrite ?length_arange, ?length_arange_down; lia).
  rewrite nth_arange, nth_arange_down by lia.
  f_equal. lia.
Qed.
End Toeplitz.



(** ** hankel *)

Section Hankel.
Variable c : ndarray.
Variable ropt : option ndarray.
Variables nc nr : nat.

(** The row [hankel] works with: [r] flattened, or zeros when it is
    omitted. *)
Let row : ndarray :=
  match ropt with
  | None => zeros_like (ravel c)
  | Some r => ravel r
  end.

Hypothesis c_wf : wf c.
Hypothesis c_shape : shape c = [nc].
Hypothesis row_shape : shape row = [nr].
Hypothesis row_length : length (data row) = nr.
Hypothesis row_values : values_ok row.
Hypothesis sizes_small : Z.of_nat (nc + nr) <= 2 ^ 63.

Let vals : list Z := data c ++ tl (data row).

Lemma hankel_c_length : length (data c) = nc.
Proof. destruct c_wf as [H _]. rewrite H, c_shape. simpl. lia. Qed.


Lemma hankel_value :
  hankel c ropt =
  Ok (mk_ndarray [nc; nr]
        (promote (dtype_of c) (promote (dtype_of row) (dtype_of c)))
        (flat_map
           (fun x => map (fun y => nth (Z.to_nat (x + y)) vals 0)
                         (data (arange (Z.of_nat nr))))
           (data (arange (Z.of_nat nc))))).
Proof.
  unfold hankel. fold row. unfold ravel, len.
  cbn [shape dtype_of data]. rewrite c_shape, row_shape.
  cbn [prod_shape fold_right nth]. rewrite !Nat.mul_1_r.
  rewrite (concatenate_axis0_pair _ _ nc (Nat.pred nr) []).
  - cbn [bind dtype_of slice_tail data].
    rewrite (gather_ogrid _ _ _ nc nr (nc + Nat.pred nr)).
    + reflexivity.
    + reflexivity.
    + cbn [arange shape]. rewrite Nat2Z.id. reflexivity.
    + cbn [arange shape]. rewrite Nat2Z.id. reflexivity.
    + reflexivity.
    + reflexivity.
    + rewrite length_arange. lia.
    + rewrite length_arange. lia.
    + lia.
    + intros x y Hx Hy. apply in_arange in Hx. apply in_arange in Hy. lia.
  - reflexivity.
  - unfold slice_tail, len. rewrite row_shape. reflexivity.
  - cbn [shape data prod_shape fold_right]. rewrite hankel_c_length. lia.
  - unfold slice_tail, len. rewrite row_shape.
    cbn [shape data nth prod_shape fold_right].
    pose proof row_length as H. destruct (data row); simpl in *; lia.
  - destruct c_wf as [_ H]. exact H.
  - pose proof row_values as H. unfold values_ok in *.
    cbn [slice_tail dtype_of data]. destruct (data row); [constructor|].
    inversion H; assumption.
Qed.

Lemma hankel_entries :
  exists A, hankel c ropt = Ok A /\ shape A = [nc; nr]
    /\ forall i j, (i < nc)%nat -> (j < nr)%nat ->
         get2 A i j = nth (i + j) vals 0.
Proof.
  eexists. split; [apply hankel_value|]. split; [reflexivity|].
  intros i j Hi Hj. unfold get2, shape_at. cbn [shape data nth].
  replace (i * nr + j)%nat
    with (i * length (data (arange (Z.of_nat nr))) + j)%nat
    by (rewrite length_arange, Nat2Z.id; reflexivity).
  rewrite gather_entry by (rewrite ?length_arange; lia).
  rewrite !nth_arange by lia.
  f_equal. lia.
Qed.
End Hankel.

Lemma length_1d (a : ndarray) (n : nat) :
  wf a -> shape a = [n] -> length (data a) = n.
Proof. intros [H _] Hs. rewrite H, Hs. simpl. lia. Qed.

Lemma ravel_1d (r : ndarray) (nr : nat) :
  wf r -> shape r = [nr] ->
  shape (ravel r) = [nr] /\ length (data (ravel r)) = nr /\ values_ok (ravel r).
Proof.
  intros [Hl Hv] Hs. unfold ravel. cbn [shape data dtype_of].
  rewrite Hl, Hs. cbn [prod_shape fold_right]. rewrite Nat.mul_1_r. auto.
Qed.

Lemma zeros_like_1d (c : ndarray) (nc : nat) :
  shape c = [nc] ->
  shape (zeros_like (ravel c)) = [nc]
  /\ length (data (zeros_like (ravel c))) = nc
  /\ values_ok (zeros_like (ravel c)).
Proof.
  intros Hs. unfold zeros_like, zeros, ravel, values_ok.
  cbn [shape data dtype_of]. rewrite Hs. cbn [prod_shape fold_right].
  rewrite !Nat.mul_1_r, repeat_length. repeat split.
  apply Forall_forall. intros v Hv. apply repeat_spec in Hv. subst v. apply cast_0.
Qed.

Lemma nth_tl_repeat_0 (k n : nat) : nth k (tl (repeat 0 n)) 0 = 0.
Proof.
  destruct n as [|n]; [destruct k; reflexivity|]. simpl. apply nth_repeat.
Qed.






(** ** Concatenation along the second axis *)

Section ConcatAxis1.
Variables d0 d1 : nat.
Variable rest : list nat.
Variable d : dtype.

Let uniform (a : ndarray) : Prop :=
  shape a = d0 :: d1 :: rest /\ dtype_of a = d.

Lemma uniform_sum (arrs : list ndarray) :
  Forall uniform arrs ->
  sum_nat (map (fun a => shape_at a 1) arrs) = (length arrs * d1)%nat.
Proof.
  induction 1 as [|a arrs [Hs _] _ IH]; [reflexivity|].
  cbn [map sum_nat fold_right length]. fold (sum_nat (map (fun a => shape_at a 1) arrs)).
  rewrite IH. unfold shape_at. rewrite Hs. cbn [nth]. lia.
Qed.

Lemma uniform_dtype (arrs : list ndarray) :
  Forall uniform arrs -> fold_right promote d (map dtype_of arrs) = d.
Proof.
  induction 1 as [|a arrs [_ Hd] _ IH]; [reflexivity|].
  cbn [map fold_right]. rewrite IH, Hd. apply promote_idem.
Qed.

Lemma concatenate_axis1_uniform (arrs : list ndarray) :
  arrs <> [] -> Forall uniform arrs ->
  concatenate arrs 1 =
  Ok (mk_ndarray (d0 :: (length arrs * d1)%nat :: rest) d
        (flat_map
           (fun o => flat_map
                       (fun a => map (cast d)
                                   (chunk (d1 * prod_shape rest) o (data a)))
                       arrs)
           (seq 0 d0))).
Proof.
  intros Hne Hall. destruct arrs as [|a0 arrs']; [congruence|].
  assert (H0 : uniform a0) by (inversion Hall; assumption).
  destruct H0 as [Hs0 Hd0].
  assert (Hfa : forallb (same_off_axis 1 a0) (a0 :: arrs') = true).
  { apply forallb_forall. intros a Ha.
    rewrite Forall_forall in Hall. destruct (Hall a Ha) as [Hs _].
    unfold same_off_axis, ndim. rewrite Hs, Hs0. cbn [length firstn skipn].
    rewrite !list_eqb_refl. reflexivity. }
  unfold concatenate. rewrite Hfa, uniform_sum by assumption.
  rewrite Hd0, uniform_dtype by assumption.
  rewrite Hs0. cbn [firstn skipn app].
  change (prod_shape [d0]) with (d0 * 1)%nat.
  rewrite Nat.mul_1_r. f_equal. f_equal.
  apply flat_map_ext. intros o. apply flat_map_agree. intros a Ha.
  rewrite Forall_forall in Hall. destruct (Hall a Ha) as [Hs _].
  rewrite Hs. reflexivity.
Qed.

(** The element at row [o], inside the [k]-th array, at offset [t]. *)
Lemma nth_concatenate_axis1 (arrs : list ndarray) (o k t : nat) (dflt : ndarray) :
  (forall a, In a arrs -> length (data a) = (d0 * (d1 * prod_shape rest))%nat) ->
  (o < d0)%nat -> (k < length arrs)%nat -> (t < d1 * prod_shape rest)%nat ->
  nth (o * (length arrs * (d1 * prod_shape rest)) + (k * (d1 * prod_shape rest) + t))
      (flat_map
         (fun o => flat_map
                     (fun a => map (cast d)
                                 (chunk (d1 * prod_shape rest) o (data a)))
                     arrs)
         (seq 0 d0)) 0
  = cast d (nth (o * (d1 * prod_shape rest) + t) (data (nth k arrs dflt)) 0).
Proof.
  intros Hlen Ho Hk Ht.
  set (n1 := (d1 * prod_shape rest)%nat) in *.
  assert (Hrow : forall o', In o' (seq 0 d0) -> forall a, In a arrs ->
                   length (map (cast d) (chunk n1 o' (data a))) = n1).
  { intros o' Ho' a Ha. apply in_seq in Ho'.
    rewrite length_map, length_chunk; [reflexivity|].
    rewrite (Hlen a Ha). fold n1. nia. }
  rewrite (nth_flat_map_rows _ (length arrs * n1) _ o _ 0%nat).
  - rewrite nth_seq_0 by assumption.
    rewrite (nth_flat_map_rows _ n1 _ k t dflt).
    + rewrite (nth_map_in _ _ _ _ 0).
      * rewrite nth_chunk by assumption. reflexivity.
      * rewrite length_chunk; [assumption|].
        rewrite (Hlen (nth k arrs dflt)) by (apply nth_In; assumption).
        fold n1. nia.
    + intros a Ha. apply Hrow; [apply in_seq; lia | exact Ha].
    + assumption.
    + assumption.
  - intros o' Ho'. apply length_flat_map_rows. intros a Ha. apply Hrow; assumption.
  - rewrite length_seq. assumption.
  - nia.
Qed.
End ConcatAxis1.

(** ** Sums *)

Lemma sum_Z_app (l1 l2 : list Z) : sum_Z (l1 ++ l2) = sum_Z l1 + sum_Z l2.
Proof. induction l1 as [|x l1 IH]; simpl; [reflexivity | rewrite IH; lia]. Qed.

Lemma sum_Z_agree {A} (f g : A -> Z) (l : list A) :
  (forall x, In x l -> f x = g x) -> sum_Z (map f l) = sum_Z (map g l).
Proof. intros H. f_equal. apply map_ext_in, H. Qed.

Lemma sum_Z_opp {A} (f : A -> Z) (l : list A) :
  sum_Z (map (fun x => - f x) l) = - sum_Z (map f l).
Proof. induction l as [|x l IH]; simpl; [reflexivity | rewrite IH; lia]. Qed.

Lemma seq_shift_by (s n a : nat) :
  seq (s + a) n = map (fun t => (s + t)%nat) (seq a n).
Proof.
  revert a. induction n as [|n IH]; intros a; simpl; [reflexivity|].
  f_equal. rewrite <- IH. f_equal. lia.
Qed.

(** ** Sylvester's doubling keeps the rows orthogonal *)

Section Doubling.
Variable h : nat -> nat -> Z.
Variable s : nat.
Hypothesis h_orth :
  forall a b, (a < s)%nat -> (b < s)%nat ->
    row_dot h s a b = if (a =? b)%nat then Z.of_nat s else 0.

Let half (i : nat) : nat := if (i <? s)%nat then i else (i - s)%nat.

Lemma row_dot_left (i i' : nat) :
  sum_Z (map (fun k => sylvester_entry s h i k * sylvester_entry s h i' k) (seq 0 s))
  = row_dot h s (half i) (half i').
Proof.
  unfold row_dot. apply sum_Z_agree. intros k Hk. apply in_seq in Hk.
  unfold sylvester_entry, half.
  replace (k <? s)%nat with true by (symmetry; apply Nat.ltb_lt; lia).
  destruct (i <? s)%nat, (i' <? s)%nat; reflexivity.
Qed.

Lemma row_dot_right (i i' : nat) :
  sum_Z (map (fun k => sylvester_entry s h i k * sylvester_entry s h i' k) (seq s s))
  = (if Bool.eqb (i <? s)%nat (i' <? s)%nat then 1 else -1)
    * row_dot h s (half i) (half i').
Proof.
  replace (seq s s) with (seq (s + 0) s) by (f_equal; lia).
  rewrite seq_shift_by, map_map. unfold row_dot.
  assert (Hent : forall a t, sylvester_entry s h a (s + t)
                   = if (a <? s)%nat then h (half a) t else - h (half a) t).
  { intros a t. unfold sylvester_entry, half.
    replace (s + t <? s)%nat with false by (symmetry; apply Nat.ltb_ge; lia).
    replace (s + t - s)%nat with t by lia.
    destruct (a <? s)%nat; reflexivity. }
  destruct (i <? s)%nat eqn:Hi, (i' <? s)%nat eqn:Hi'; cbn [Bool.eqb].
  - rewrite Z.mul_1_l. apply sum_Z_agree. intros t _.
    rewrite !Hent, Hi, Hi'. reflexivity.
  - rewrite Z.mul_comm, <- Z.opp_eq_mul_m1, <- sum_Z_opp. apply sum_Z_agree. intros t _.
    rewrite !Hent, Hi, Hi'. lia.
  - rewrite Z.mul_comm, <- Z.opp_eq_mul_m1, <- sum_Z_opp. apply sum_Z_agree. intros t _.
    rewrite !Hent, Hi, Hi'. lia.
  - rewrite Z.mul_1_l. apply sum_Z_agree. intros t _.
    rewrite !Hent, Hi, Hi'. lia.
Qed.

Lemma row_dot_sylvester (i i' : nat) :
  (i < s + s)%nat -> (i' < s + s)%nat ->
  row_dot (sylvester_entry s h) (s + s) i i'
  = if (i =? i')%nat then Z.of_nat (s + s) else 0.
Proof.
  intros Hi Hi'. unfold row_dot at 1.
  rewrite seq_app, map_app, sum_Z_app. cbn [Nat.add].
  rewrite row_dot_left, row_dot_right.
  assert (Hh : (half i < s)%nat /\ (half i' < s)%nat).
  { unfold half. destruct (Nat.ltb_spec i s), (Nat.ltb_spec i' s); lia. }
  rewrite h_orth by apply Hh.
  unfold half.
  destruct (Nat.ltb_spec i s), (Nat.ltb_spec i' s); cbn [Bool.eqb];
    destruct (Nat.eqb_spec i i');
    repeat match goal with
           | |- context [(?a =? ?b)%nat] => destruct (Nat.eqb_spec a b)
           end; lia.
Qed.
End Doubling.

(** ** One step of Sylvester's construction on arrays *)

Lemma cast_pm1 (d : dtype) (v : Z) : d <> dt_bool -> pm1 v -> cast d v = v.
Proof.
  intros Hd [-> | ->]; destruct d; try congruence; reflexivity.
Qed.

Lemma cast_opp_pm1 (d : dtype) (v : Z) : d <> dt_bool -> pm1 v -> cast d (- v) = - v.
Proof.
  intros Hd [-> | ->]; destruct d; try congruence; reflexivity.
Qed.

Lemma Forall_cast_rows {A} (d : dtype) (f : A -> list Z) (l : list A) :
  Forall (fun v => cast d v = v) (flat_map (fun x => map (cast d) (f x)) l).
Proof.
  apply Forall_forall. intros v Hv. apply in_flat_map in Hv.
  destruct Hv as (x & _ & Hv). apply in_map_iff in Hv.
  destruct Hv as (w & <- & _). apply cast_idem.
Qed.

Section SylvesterStep.
Variable H : ndarray.
Variable s : nat.
Variable d : dtype.
Hypothesis H_shape : shape H = [s; s].
Hypothesis H_dtype : dtype_of H = d.
Hypothesis d_signed : d <> dt_bool.
Hypothesis H_length : length (data H) = (s * s)%nat.
Hypothesis H_pm1 : forall i j, (i < s)%nat -> (j < s)%nat -> pm1 (get2 H i j).

Let mH : ndarray :=
  mk_ndarray (shape H) d (map (fun x => cast d (- x)) (data H)).

Let hrows (arrs : list ndarray) : list Z :=
  flat_map
    (fun o => flat_map
                (fun a => map (cast d) (chunk (s * prod_shape []) o (data a)))
                arrs)
    (seq 0 s).

Lemma negative_value : negative H = Ok mH.
Proof.
  unfold negative, mH. rewrite H_dtype. destruct d; congruence.
Qed.

Lemma hstack_value (B : ndarray) :
  shape B = [s; s] -> dtype_of B = d ->
  hstack [H; B] = Ok (mk_ndarray [s; (s + s)%nat] d (hrows [H; B])).
Proof.
  intros HBs HBd. unfold hstack, atleast_1d. cbn [map].
  rewrite H_shape, HBs. unfold ndim. rewrite H_shape. cbn [length Nat.eqb].
  rewrite (concatenate_axis1_uniform s s [] d).
  - cbn [length]. replace (2 * s)%nat with (s + s)%nat by lia. reflexivity.
  - discriminate.
  - repeat constructor; assumption.
Qed.

Lemma hrows_length (B : ndarray) :
  length (data B) = (s * s)%nat -> length (hrows [H; B]) = (s * (s + s))%nat.
Proof.
  intros HB. unfold hrows.
  rewrite (length_flat_map_rows _ (s + s)%nat), length_seq; [reflexivity|].
  intros o Ho. apply in_seq in Ho. cbn [flat_map prod_shape fold_right].
  rewrite app_nil_r, length_app, !length_map, Nat.mul_1_r.
  rewrite !length_chunk by (rewrite ?HB, ?H_length; nia). reflexivity.
Qed.

Lemma hrows_entry (B : ndarray) (i j : nat) :
  length (data B) = (s * s)%nat -> (i < s)%nat -> (j < s + s)%nat ->
  nth (i * (s + s) + j) (hrows [H; B]) 0
  = if (j <? s)%nat then cast d (nth (i * s + j) (data H) 0)
    else cast d (nth (i * s + (j - s)) (data B) 0).
Proof.
  intros HB Hi Hj. unfold hrows.
  assert (Hlen : forall a, In a [H; B] ->
                   length (data a) = (s * (s * prod_shape []))%nat).
  { intros a [<- | [<- | []]]; cbn [prod_shape fold_right]; rewrite ?HB, ?H_length; lia. }
  pose proof (nth_concatenate_axis1 s s [] d [H; B] i) as Hn.
  cbn [length] in Hn.
  destruct (Nat.ltb_spec j s) as [Hlt|Hge].
  - specialize (Hn 0%nat j H Hlen Hi ltac:(lia)
                   ltac:(cbn [prod_shape fold_right]; lia)).
    cbn [prod_shape fold_right nth] in Hn. rewrite Nat.mul_1_r in Hn.
    replace (i * (2 * s) + (0 * s + j))%nat with (i * (s + s) + j)%nat in Hn by lia.
    cbn [prod_shape fold_right]. rewrite Nat.mul_1_r. exact Hn.
  - specialize (Hn 1%nat (j - s)%nat H Hlen Hi ltac:(lia)
                   ltac:(cbn [prod_shape fold_right]; lia)).
    cbn [prod_shape fold_right nth] in Hn. rewrite Nat.mul_1_r in Hn.
    replace (i * (2 * s) + (1 * s + (j - s)))%nat with (i * (s + s) + j)%nat in Hn
      by lia.
    cbn [prod_shape fold_right]. rewrite Nat.mul_1_r. exact Hn.
Qed.

Lemma sylvester_step_value :
  sylvester_step H =
  Ok (mk_ndarray [(s + s)%nat; (s + s)%nat] d (hrows [H; H] ++ hrows [H; mH])).
Proof.
  assert (HmL : length (data mH) = (s * s)%nat)
    by (unfold mH; cbn [data]; rewrite length_map; exact H_length).
  unfold sylvester_step.
  rewrite (hstack_value H H_shape H_dtype). cbn [bind].
  rewrite negative_value. cbn [bind].
  rewrite (hstack_value mH) by (unfold mH; cbn [shape dtype_of]; auto).
  cbn [bind]. unfold vstack, atleast_2d. cbn [map shape].
  rewrite (concatenate_axis0_pair _ _ s s [(s + s)%nat]).
  - cbn [dtype_of data]. rewrite !promote_idem. reflexivity.
  - reflexivity.
  - reflexivity.
  - cbn [data shape prod_shape fold_right].
    rewrite (hrows_length H H_length). lia.
  - cbn [data shape prod_shape fold_right]. rewrite (hrows_length mH HmL). lia.
  - apply Forall_forall. intros v Hv. cbn [data dtype_of] in *.
    unfold hrows in Hv. apply in_flat_map in Hv. destruct Hv as (o & _ & Hv).
    pose proof (Forall_cast_rows d (fun a => chunk (s * prod_shape []) o (data a)) [H; H])
      as HF.
    rewrite Forall_forall in HF. apply HF, Hv.
  - apply Forall_forall. intros v Hv. cbn [data dtype_of] in *.
    unfold hrows in Hv. apply in_flat_map in Hv. destruct Hv as (o & _ & Hv).
    pose proof (Forall_cast_rows d (fun a => chunk (s * prod_shape []) o (data a)) [H; mH])
      as HF.
    rewrite Forall_forall in HF. apply HF, Hv.
Qed.

Lemma sylvester_step_entries :
  exists H', sylvester_step H = Ok H'
    /\ shape H' = [(s + s)%nat; (s + s)%nat] /\ dtype_of H' = d
    /\ length (data H') = ((s + s) * (s + s))%nat
    /\ forall i j, (i < s + s)%nat -> (j < s + s)%nat ->
         get2 H' i j = sylvester_entry s (get2 H) i j.
Proof.
  assert (HmL : length (data mH) = (s * s)%nat)
    by (unfold mH; cbn [data]; rewrite length_map; exact H_length).
  assert (H_pm1' : forall i j, (i < s)%nat -> (j < s)%nat ->
                     pm1 (nth (i * s + j) (data H) 0)).
  { intros i j Hi Hj. specialize (H_pm1 i j Hi Hj).
    unfold get2, shape_at in H_pm1. rewrite H_shape in H_pm1. exact H_pm1. }
  eexists. split; [apply sylvester_step_value|].
  cbn [shape dtype_of data]. repeat split.
  - rewrite length_app, (hrows_length H H_length), (hrows_length mH HmL). lia.
  - intros i j Hi Hj. unfold get2 at 1, shape_at. cbn [shape data nth].
    unfold sylvester_entry, get2, shape_at. rewrite H_shape. cbn [nth].
    destruct (Nat.ltb_spec i s) as [Hlt|Hge].
    + rewrite app_nth1 by (rewrite (hrows_length H H_length); nia).
      rewrite (hrows_entry H i j H_length Hlt Hj).
      destruct (Nat.ltb_spec j s).
      * apply cast_pm1; [assumption|]. apply (H_pm1' i j); lia.
      * apply cast_pm1; [assumption|]. apply (H_pm1' i (j - s)%nat); lia.
    + rewrite app_nth2 by (rewrite (hrows_length H H_length); nia).
      rewrite (hrows_length H H_length).
      replace (i * (s + s) + j - s * (s + s))%nat
        with ((i - s) * (s + s) + j)%nat by nia.
      rewrite (hrows_entry mH (i - s) j HmL) by lia.
      destruct (Nat.ltb_spec j s).
      * apply cast_pm1; [assumption|]. apply (H_pm1' (i - s)%nat j); lia.
      * unfold mH. cbn [data].
        rewrite (nth_map_in _ _ _ _ 0) by (rewrite H_length; nia).
        rewrite cast_idem. apply cast_opp_pm1; [assumption|].
        apply (H_pm1' (i - s)%nat (j - s)%nat); lia.
Qed.
End SylvesterStep.

(** ** The loop of Sylvester's construction *)

Lemma sylvester_step_inv (d : dtype) (s : nat) (H : ndarray) :
  d <> dt_bool -> hadamard_inv d s H ->
  exists H', sylvester_step H = Ok H' /\ hadamard_inv d (s + s) H'.
Proof.
  intros Hd (Hs & Hdt & Hl & Hpm & Horth).
  destruct (sylvester_step_entries H s d Hs Hdt Hd Hl Hpm)
    as (H' & Hstep & Hs' & Hdt' & Hl' & He').
  exists H'. split; [exact Hstep|]. repeat split; try assumption.
  - intros i j Hi Hj. rewrite He' by assumption. unfold sylvester_entry.
    destruct (Nat.ltb_spec i s), (Nat.ltb_spec j s);
      try (apply Hpm; lia).
    destruct (Hpm (i - s)%nat (j - s)%nat ltac:(lia) ltac:(lia)) as [-> | ->];
      [right | left]; reflexivity.
  - intros i i' Hi Hi'.
    rewrite <- (row_dot_sylvester (get2 H) s Horth i i' Hi Hi').
    unfold row_dot. apply sum_Z_agree. intros k Hk. apply in_seq in Hk.
    rewrite !He' by lia. reflexivity.
Qed.

Lemma sylvester_loop_inv (d : dtype) (steps : nat) :
  d <> dt_bool ->
  forall (s : nat) (H : ndarray), hadamard_inv d s H ->
  exists H', sylvester_loop steps H = Ok H' /\ hadamard_inv d (s * 2 ^ steps) H'.
Proof.
  intros Hd. induction steps as [|steps IH]; intros s H Hinv.
  - exists H. split; [reflexivity|].
    replace (s * 2 ^ 0)%nat with s by (simpl; lia). exact Hinv.
  - destruct (sylvester_step_inv d s H Hd Hinv) as (H1 & Hstep & Hinv1).
    destruct (IH _ _ Hinv1) as (H' & Hloop & Hinv').
    exists H'. split.
    + cbn [sylvester_loop]. rewrite Hstep. exact Hloop.
    + replace (s * 2 ^ S steps)%nat with ((s + s) * 2 ^ steps)%nat
        by (rewrite Nat.pow_succ_r'; lia).
      exact Hinv'.
Qed.

Lemma hadamard_inv_base (d : dtype) :
  d <> dt_bool -> hadamard_inv d 1 (array2 d [[1]]).
Proof.
  intros Hd. unfold hadamard_inv, array2.
  cbn [shape dtype_of data length hd concat app map].
  rewrite cast_1. repeat split.
  - intros i j Hi Hj. replace i with 0%nat by lia. replace j with 0%nat by lia.
    left. reflexivity.
  - intros i i' Hi Hi'. replace i with 0%nat by lia. replace i' with 0%nat by lia.
    reflexivity.
Qed.



Section HadamardProps.
Variable int_log2 : Z -> Z.


Lemma hadamard_pow2 (n : Z) (dt : dtype) :
  dt <> dt_bool -> is_pow2 n -> int_log2 n = Z.log2 n ->
  exists H, hadamard int_log2 n dt = Ok H
    /\ hadamard_inv dt (Z.to_nat n) H.
Proof.
  intros Hdt (k & Hk & ->) Hlog.
  rewrite Z.log2_pow2 in Hlog by assumption.
  assert (Hpos : 0 < 2 ^ k) by (apply Z.pow_pos_nonneg; lia).
  unfold hadamard.
  replace (2 ^ k <? 1) with false by (symmetry; apply Z.ltb_ge; lia).
  rewrite Hlog, Z.eqb_refl. cbn [negb].
  destruct (sylvester_loop_inv dt (Z.to_nat k) Hdt 1 _ (hadamard_inv_base dt Hdt))
    as (H & Hloop & Hinv).
  exists H. split; [exact Hloop|].
  replace (Z.to_nat (2 ^ k)) with (1 * 2 ^ Z.to_nat k)%nat; [exact Hinv|].
  rewrite Nat.mul_1_l. apply Nat2Z.inj.
  rewrite Nat2Z.inj_pow, !Z2Nat.id by lia. reflexivity.
Qed.
End HadamardProps.

(** ** Products with the transpose *)

Lemma get2_transpose (a : ndarray) (R C k j : nat) :
  shape a = [R; C] -> (k < C)%nat -> (j < R)%nat ->
  get2 (transpose a) k j = get2 a j k.
Proof.
  intros Hs Hk Hj. unfold get2 at 1, transpose, shape_at.
  cbn [shape data]. rewrite Hs. cbn [nth].
  rewrite (nth_flat_map_rows _ R _ k j 0%nat)
    by (intros; rewrite ?length_map, ?length_seq; lia).
  rewrite (nth_map_in _ _ _ _ 0%nat) by (rewrite length_seq; lia).
  rewrite !nth_seq_0 by lia. reflexivity.
Qed.

Lemma dot_transpose_entry (a : ndarray) (R C i j : nat) :
  shape a = [R; C] -> (j < R)%nat ->
  dot_entry a (transpose a) i j = row_dot (get2 a) C i j.
Proof.
  intros Hs Hj. unfold dot_entry, row_dot, shape_at. rewrite Hs. cbn [nth].
  apply sum_Z_agree. intros k Hk. apply in_seq in Hk.
  rewrite (get2_transpose a R C) by (assumption || lia). reflexivity.
Qed.

Lemma hadamard_inv_gram (s : nat) (H : ndarray) :
  hadamard_inv dt_int s H -> dot H (transpose H) = scaled_identity s.
Proof.
  intros (Hs & Hd & _ & _ & Horth).
  assert (Ht : shape_at (transpose H) 1 = s)
    by (unfold transpose, shape_at; cbn [shape nth]; rewrite Hs; reflexivity).
  assert (H0 : shape_at H 0 = s) by (unfold shape_at; rewrite Hs; reflexivity).
  assert (Hdt : dtype_of (transpose H) = dt_int) by exact Hd.
  unfold dot, scaled_identity. rewrite Ht, H0, Hd, Hdt. cbn [promote].
  f_equal. apply flat_map_agree. intros i Hi. apply in_seq in Hi.
  apply map_ext_in. intros j Hj. apply in_seq in Hj.
  rewrite (dot_transpose_entry H s s) by (assumption || lia).
  apply Horth; lia.
Qed.

(** ** The claims on hadamard *)

(** C5: whenever [n] is a power of two and the floating-point logarithm
    truncates to its exponent, [hadamard(n)] is an [n x n] array of entries 1
    and -1 with [H . transpose(H) = n * I_n]; and [hadamard(4)] is the matrix
    of the docstring. *)
Theorem hadamard_orthogonal (int_log2 : Z -> Z) :
  (forall n, is_pow2 n -> int_log2 n = Z.log2 n ->
     exists H, hadamard int_log2 n dt_int = Ok H
       /\ shape H = [Z.to_nat n; Z.to_nat n]
       /\ (forall i j, (i < Z.to_nat n)%nat -> (j < Z.to_nat n)%nat ->
             get2 H i j = 1 \/ get2 H i j = -1)
       /\ dot H (transpose H) = scaled_identity (Z.to_nat n))
  /\ (int_log2 4 = 2 ->
      (H <- hadamard int_log2 4 dt_int ;; Ok (tolist2 H))
      = Ok [[1; 1; 1; 1]; [1; -1; 1; -1]; [1; 1; -1; -1]; [1; -1; -1; 1]]).
Proof.
  split.
  - intros n Hn Hlog.
    destruct (hadamard_pow2 int_log2 n dt_int ltac:(discriminate) Hn Hlog)
      as (H & HH & Hinv).
    exists H. split; [exact HH|].
    pose proof (hadamard_inv_gram _ _ Hinv) as Hgram.
    destruct Hinv as (Hs & _ & _ & Hpm & _).
    repeat split; assumption.
  - intros Hlog. unfold hadamard. rewrite Hlog. vm_compute. reflexivity.
Qed.

Lemma hadamard_orthogonal_witness :
  exists H, hadamard Z.log2 16 dt_int = Ok H
    /\ shape H = [16%nat; 16%nat]
    /\ dot H (transpose H) = scaled_identity 16.
Proof.
  destruct (proj1 (hadamard_orthogonal Z.log2) 16) as (H & HH & Hs & _ & Hg).
  - exists 4. split; [lia | reflexivity].
  - reflexivity.
  - exists H. repeat split; assumption.
Defined.



(** ** kron *)

Lemma unstack_value (a : ndarray) (d0 : nat) (rest : list nat) :
  shape a = d0 :: rest ->
  unstack a = Ok (map (fun i => mk_ndarray rest (dtype_of a)
                                  (chunk (prod_shape rest) i (data a)))
                      (seq 0 d0)).
Proof. intros Hs. unfold unstack. rewrite Hs. reflexivity. Qed.

Section Kron.
Variables a b : ndarray.
Variables M N P Q : nat.
Hypothesis a_shape : shape a = [M; N].
Hypothesis b_shape : shape b = [P; Q].
Hypothesis a_length : length (data a) = (M * N)%nat.
Hypothesis b_length : length (data b) = (P * Q)%nat.
Hypothesis M_pos : (0 < M)%nat.
Hypothesis N_pos : (0 < N)%nat.

Let d : dtype := promote (dtype_of a) (dtype_of b).

(** The flat outer product, the stage after the first concatenation and
    the final stage. *)
Let O : list Z :=
  flat_map (fun x => map (fun y => cast d (x * y)) (data b)) (data a).

Let blocks : list ndarray :=
  map (fun i => mk_ndarray [N; P; Q] d (chunk (prod_shape [N; P; Q]) i O)) (seq 0 M).

Let Y : list Z :=
  flat_map (fun o => flat_map
                       (fun x => map (cast d) (chunk (P * prod_shape [Q]) o (data x)))
                       blocks)
           (seq 0 N).

Let blocks1 : list ndarray :=
  map (fun i => mk_ndarray [(M * P)%nat; Q] d
                  (chunk (prod_shape [(M * P)%nat; Q]) i Y))
      (seq 0 N).

Let K : list Z :=
  flat_map (fun o => flat_map
                       (fun x => map (cast d) (chunk (Q * prod_shape []) o (data x)))
                       blocks1)
           (seq 0 (M * P)).

Lemma kron_O_length : length O = (M * N * (P * Q))%nat.
Proof.
  unfold O. rewrite (length_flat_map_rows _ (P * Q)%nat), a_length; [reflexivity|].
  intros x _. rewrite length_map. exact b_length.
Qed.

Lemma kron_blocks_length : length blocks = M.
Proof. unfold blocks. rewrite length_map, length_seq. reflexivity. Qed.

Lemma kron_blocks1_length : length blocks1 = N.
Proof. unfold blocks1. rewrite length_map, length_seq. reflexivity. Qed.

Lemma kron_value :
  kron a b = Ok (mk_ndarray [(M * P)%nat; (N * Q)%nat] d K).
Proof.
  unfold kron, contiguous. cbn [negb bind].
  assert (Ho : outer a b
               = mk_ndarray [prod_shape [M; N]; prod_shape [P; Q]] d O).
  { unfold outer, outer_with, ravel. cbn [shape data dtype_of].
    rewrite a_shape, b_shape. reflexivity. }
  rewrite Ho, a_shape, b_shape. unfold reshape. cbn [shape dtype_of data app].
  replace (prod_shape [M; N; P; Q] =? prod_shape [prod_shape [M; N]; prod_shape [P; Q]])%nat
    with true by (symmetry; apply Nat.eqb_eq; cbn [prod_shape fold_right]; lia).
  cbn [bind].
  rewrite (unstack_value _ M [N; P; Q]) by reflexivity.
  cbn [bind dtype_of data]. fold blocks.
  rewrite (concatenate_axis1_uniform N P [Q] d blocks).
  - cbn [bind]. rewrite kron_blocks_length. fold Y.
    rewrite (unstack_value _ N [(M * P)%nat; Q]) by reflexivity.
    cbn [bind dtype_of data]. fold blocks1.
    rewrite (concatenate_axis1_uniform (M * P) Q [] d blocks1).
    + rewrite kron_blocks1_length. reflexivity.
    + unfold blocks1. destruct N; [lia | discriminate].
    + unfold blocks1. apply Forall_forall. intros x Hx.
      apply in_map_iff in Hx. destruct Hx as (i & <- & _). split; reflexivity.
  - unfold blocks. destruct M; [lia | discriminate].
  - unfold blocks. apply Forall_forall. intros x Hx.
    apply in_map_iff in Hx. destruct Hx as (i & <- & _). split; reflexivity.
Qed.
Lemma kron_blocks_data (x : ndarray) :
  In x blocks -> length (data x) = (N * (P * prod_shape [Q]))%nat.
Proof.
  unfold blocks. intros Hx. apply in_map_iff in Hx.
  destruct Hx as (i & <- & Hi). apply in_seq in Hi. cbn [data].
  rewrite length_chunk; [reflexivity|].
  rewrite kron_O_length. cbn [prod_shape fold_right]. nia.
Qed.

Lemma kron_Y_length : length Y = (N * (M * (P * Q)))%nat.
Proof.
  unfold Y.
  rewrite (length_flat_map_rows _ (M * (P * Q))%nat), length_seq; [reflexivity|].
  intros o Ho. apply in_seq in Ho.
  rewrite (length_flat_map_rows _ (P * Q)%nat), kron_blocks_length; [reflexivity|].
  intros x Hx. rewrite length_map, length_chunk.
  - cbn [prod_shape fold_right]. lia.
  - rewrite (kron_blocks_data x Hx). cbn [prod_shape fold_right]. nia.
Qed.

Lemma kron_blocks1_data (x : ndarray) :
  In x blocks1 -> length (data x) = (M * P * (Q * prod_shape []))%nat.
Proof.
  unfold blocks1. intros Hx. apply in_map_iff in Hx.
  destruct Hx as (i & <- & Hi). apply in_seq in Hi. cbn [data].
  rewrite length_chunk; [cbn [prod_shape fold_right]; lia|].
  rewrite kron_Y_length. cbn [prod_shape fold_right]. nia.
Qed.

Lemma kron_O_entry (I J p q : nat) :
  (I < M)%nat -> (J < N)%nat -> (p < P)%nat -> (q < Q)%nat ->
  nth ((I * N + J) * (P * Q) + (p * Q + q)) O 0
  = cast d (get2 a I J * get2 b p q).
Proof.
  intros HI HJ Hp Hq. unfold O.
  rewrite (nth_flat_map_rows _ (P * Q)%nat _ _ _ 0)
    by (intros; rewrite ?length_map; nia).
  rewrite (nth_map_in _ _ _ _ 0) by nia.
  unfold get2, shape_at. rewrite a_shape, b_shape. reflexivity.
Qed.

Lemma kron_entry (I J p q : nat) :
  (I < M)%nat -> (J < N)%nat -> (p < P)%nat -> (q < Q)%nat ->
  nth ((I * P + p) * (N * Q) + (J * Q + q)) K 0
  = cast d (get2 a I J * get2 b p q).
Proof.
  intros HI HJ Hp Hq.
  set (dflt := mk_ndarray [] d []).
  pose proof (nth_concatenate_axis1 (M * P) Q [] d blocks1 (I * P + p) J q dflt
                kron_blocks1_data) as H2.
  rewrite kron_blocks1_length in H2.
  specialize (H2 ltac:(nia) HJ ltac:(cbn [prod_shape fold_right]; lia)).
  fold K in H2. cbn [prod_shape fold_right] in H2. rewrite !Nat.mul_1_r in H2.
  rewrite H2. clear H2.
  unfold blocks1 at 1.
  rewrite (nth_map_in _ _ _ _ 0%nat) by (rewrite length_seq; exact HJ).
  rewrite nth_seq_0 by exact HJ. cbn [data].
  rewrite nth_chunk by (cbn [prod_shape fold_right]; nia).
  pose proof (nth_concatenate_axis1 N P [Q] d blocks J I (p * Q + q) dflt
                kron_blocks_data) as H1.
  rewrite kron_blocks_length in H1.
  specialize (H1 HJ HI ltac:(cbn [prod_shape fold_right]; nia)).
  fold Y in H1. cbn [prod_shape fold_right] in H1 |- *.
  rewrite !Nat.mul_1_r in H1 |- *.
  replace (J * (M * P * Q) + ((I * P + p) * Q + q))%nat
    with (J * (M * (P * Q)) + (I * (P * Q) + (p * Q + q)))%nat by nia.
  rewrite H1. clear H1.
  unfold blocks at 1.
  rewrite (nth_map_in _ _ _ _ 0%nat) by (rewrite length_seq; exact HI).
  rewrite nth_seq_0 by exact HI. cbn [data].
  rewrite nth_chunk by (cbn [prod_shape fold_right]; nia).
  cbn [prod_shape fold_right]. rewrite !Nat.mul_1_r.
  replace (I * (N * (P * Q)) + (J * (P * Q) + (p * Q + q)))%nat
    with ((I * N + J) * (P * Q) + (p * Q + q))%nat by nia.
  rewrite kron_O_entry by assumption.
  rewrite !cast_idem. reflexivity.
Qed.

(** Every [P x Q] block of the result is the scaled copy of [b]. *)
Lemma kron_entries :
  exists R, kron a b = Ok R /\ shape R = [(M * P)%nat; (N * Q)%nat]
    /\ dtype_of R = d
    /\ forall I J p q, (I < M)%nat -> (J < N)%nat -> (p < P)%nat -> (q < Q)%nat ->
         get2 R (I * P + p) (J * Q + q) = cast d (get2 a I J * get2 b p q).
Proof.
  eexists. split; [apply kron_value|]. repeat split.
  intros I J p q HI HJ Hp Hq. unfold get2 at 1, shape_at. cbn [shape data nth].
  apply kron_entry; assumption.
Qed.
End Kron.

(** ** The claim on kron *)

Lemma tolist2_scalar_times (dt : dtype) (s : Z) (b : ndarray) (P Q p : nat) :
  shape b = [P; Q] -> length (data b) = (P * Q)%nat -> (p < P)%nat ->
  chunk Q p (data (scalar_times dt s b))
  = map (fun q => cast (promote dt (dtype_of b)) (s * get2 b p q)) (seq 0 Q).
Proof.
  intros Hs Hl Hp. cbn [scalar_times data].
  apply (nth_ext _ _ 0 0).
  - rewrite length_chunk by (rewrite length_map, Hl; nia).
    rewrite length_map, length_seq. reflexivity.
  - intros q Hq. rewrite length_chunk in Hq by (rewrite length_map, Hl; nia).
    rewrite nth_chunk by exact Hq.
    rewrite (nth_map_in _ _ _ _ 0) by (rewrite Hl; nia).
    rewrite (nth_map_in _ _ _ _ 0%nat) by (rewrite length_seq; exact Hq).
    rewrite nth_seq_0 by exact Hq.
    unfold get2, shape_at. rewrite Hs. reflexivity.
Qed.

(** C7: for 2D arrays [a] of shape [(M, N)] with [M, N >= 1] and [b] of shape
    [(P, Q)], [kron(a, b)] has shape [(M*P, N*Q)] and its block
    [[I*P:(I+1)*P, J*Q:(J+1)*Q]] is [a[I,J] * b]; but when [a] has no rows,
    or no columns, [np.concatenate] is given nothing to concatenate and
    [kron] raises. *)
Theorem kron_spec :
  (forall (a b : ndarray) (M N P Q : nat),
     shape a = [M; N] -> shape b = [P; Q] ->
     length (data a) = (M * N)%nat -> length (data b) = (P * Q)%nat ->
     (0 < M)%nat -> (0 < N)%nat ->
     exists R, kron a b = Ok R /\ shape R = [(M * P)%nat; (N * Q)%nat]
       /\ forall I J, (I < M)%nat -> (J < N)%nat ->
            block R (I * P) (J * Q) P Q
            = tolist2 (scalar_times (dtype_of a) (get2 a I J) b))
  /\ kron (zeros [0%nat; 1%nat] dt_int) (array2 dt_int [[1]])
     = Raise ValueError_concatenate
  /\ kron (zeros [1%nat; 0%nat] dt_int) (array2 dt_int [[1]])
     = Raise ValueError_concatenate.
Proof.
  split; [|split; reflexivity].
  intros a b M N P Q Ha Hb Hla Hlb HM HN.
  destruct (kron_entries a b M N P Q Ha Hb Hla Hlb HM HN) as (R & HR & Hs & Hd & He).
  exists R. split; [exact HR|]. split; [exact Hs|].
  intros I J HI HJ. unfold block, tolist2.
  assert (H0 : shape_at (scalar_times (dtype_of a) (get2 a I J) b) 0 = P)
    by (unfold shape_at; cbn [scalar_times shape]; rewrite Hb; reflexivity).
  assert (H1 : shape_at (scalar_times (dtype_of a) (get2 a I J) b) 1 = Q)
    by (unfold shape_at; cbn [scalar_times shape]; rewrite Hb; reflexivity).
  rewrite H0, H1. apply map_ext_in. intros p Hp. apply in_seq in Hp.
  rewrite (tolist2_scalar_times _ _ _ P Q) by (assumption || lia).
  apply map_ext_in. intros q Hq. apply in_seq in Hq.
  apply He; lia.
Qed.

Lemma kron_spec_witness :
  exists R, kron (array2 dt_int [[1; 2]; [3; 4]]) (array2 dt_int [[1; 1; 1]]) = Ok R
    /\ shape R = [(2 * 1)%nat; (2 * 3)%nat]
    /\ block R (1 * 1) (0 * 3) 1 3
       = tolist2 (scalar_times dt_int 3 (array2 dt_int [[1; 1; 1]])).
Proof.
  destruct (proj1 kron_spec (array2 dt_int [[1; 2]; [3; 4]])
              (array2 dt_int [[1; 1; 1]]) 2%nat 2%nat 1%nat 3%nat)
    as (R & HR & Hs & Hb); try reflexivity; try lia.
  exists R. split; [exact HR|]. split; [exact Hs|].
  apply (Hb 1%nat 0%nat); lia.
Defined.

(** ** Assignment to a rectangular slice *)

Section SetSlice.
Variables out v : ndarray.
Variables R C r c rr cc : nat.
Hypothesis out_shape : shape out = [R; C].
Hypothesis out_length : length (data out) = (R * C)%nat.
Hypothesis v_shape : shape v = [rr; cc].
Hypothesis rows_fit : (r + rr <= R)%nat.
Hypothesis cols_fit : (c + cc <= C)%nat.

Lemma set_slice2_entries :
  exists out', set_slice2 out r (r + rr) c (c + cc) v = Ok out'
    /\ shape out' = [R; C] /\ dtype_of out' = dtype_of out
    /\ length (data out') = (R * C)%nat
    /\ forall i j, (i < R)%nat -> (j < C)%nat ->
         get2 out' i j
         = if ((r <=? i) && (i <? r + rr) && (c <=? j) && (j <? c + cc))%nat
           then cast (dtype_of out) (get2 v (i - r) (j - c))
           else get2 out i j.
Proof.
  unfold set_slice2, ndim, shape_at. rewrite out_shape, v_shape.
  cbn [nth length Nat.eqb].
  replace (Nat.min (r + rr) R - r)%nat with rr by lia.
  replace (Nat.min (c + cc) C - c)%nat with cc by lia.
  rewrite !Nat.eqb_refl. cbn [andb orb].
  eexists. split; [reflexivity|]. cbn [shape dtype_of data].
  repeat split.
  - rewrite length_map, length_seq. exact out_length.
  - intros i j Hi Hj. unfold get2 at 1, shape_at. cbn [shape data nth].
    pose proof (flat_index_lt R C i j Hi Hj) as Hidx.
    rewrite (nth_map_in _ _ _ _ 0%nat) by (rewrite length_seq; lia).
    rewrite nth_seq_0 by lia.
    assert (Hdiv : ((i * C + j) / C = i)%nat)
      by (symmetry; apply (Nat.div_unique _ _ _ j); lia).
    assert (Hmod : ((i * C + j) mod C = j)%nat)
      by (symmetry; apply (Nat.mod_unique _ _ i); lia).
    rewrite Hdiv, Hmod.
    destruct ((r <=? i) && (i <? r + rr) && (c <=? j) && (j <? c + cc))%nat;
      [reflexivity|].
    unfold get2, shape_at. rewrite out_shape. reflexivity.
Qed.
End SetSlice.

(** ** The placement loop of block_diag *)

Lemma row_offset_cons (a : ndarray) (bs : list ndarray) (k : nat) :
  row_offset (a :: bs) (S k) = (shape_at a 0 + row_offset bs k)%nat.
Proof. reflexivity. Qed.

Lemma col_offset_cons (a : ndarray) (bs : list ndarray) (k : nat) :
  col_offset (a :: bs) (S k) = (shape_at a 1 + col_offset bs k)%nat.
Proof. reflexivity. Qed.

Lemma row_offset_le (bs : list ndarray) (k : nat) :
  (k < length bs)%nat ->
  (row_offset bs k + shape_at (nth k bs no_block) 0
   <= sum_nat (map (fun a => shape_at a 0) bs))%nat.
Proof.
  revert k. induction bs as [|a bs IH]; intros k Hk; simpl in Hk; [lia|].
  destruct k as [|k].
  - cbn [row_offset firstn map sum_nat fold_right nth]. lia.
  - rewrite row_offset_cons. cbn [nth map sum_nat fold_right].
    specialize (IH k ltac:(lia)). unfold sum_nat in IH. lia.
Qed.

Lemma col_offset_le (bs : list ndarray) (k : nat) :
  (k < length bs)%nat ->
  (col_offset bs k + shape_at (nth k bs no_block) 1
   <= sum_nat (map (fun a => shape_at a 1) bs))%nat.
Proof.
  revert k. induction bs as [|a bs IH]; intros k Hk; simpl in Hk; [lia|].
  destruct k as [|k].
  - cbn [col_offset firstn map sum_nat fold_right nth]. lia.
  - rewrite col_offset_cons. cbn [nth map sum_nat fold_right].
    specialize (IH k ltac:(lia)). unfold sum_nat in IH. lia.
Qed.

Lemma block_diag_place_spec (bs : list ndarray) :
  Forall (fun a => ndim a = 2%nat) bs ->
  forall (out : ndarray) (R C r c : nat),
    shape out = [R; C] -> length (data out) = (R * C)%nat ->
    (r + sum_nat (map (fun a => shape_at a 0) bs) <= R)%nat ->
    (c + sum_nat (map (fun a => shape_at a 1) bs) <= C)%nat ->
    exists out', block_diag_place bs out r c = Ok out'
      /\ shape out' = [R; C] /\ dtype_of out' = dtype_of out
      /\ length (data out') = (R * C)%nat
      /\ (forall k p q, (k < length bs)%nat ->
            (p < shape_at (nth k bs no_block) 0)%nat ->
            (q < shape_at (nth k bs no_block) 1)%nat ->
            get2 out' (r + row_offset bs k + p) (c + col_offset bs k + q)
            = cast (dtype_of out) (get2 (nth k bs no_block) p q))
      /\ (forall i j, (i < R)%nat -> (j < C)%nat ->
            (forall k, (k < length bs)%nat ->
               ~ ((r + row_offset bs k <= i
                   < r + row_offset bs k + shape_at (nth k bs no_block) 0)%nat
                  /\ (c + col_offset bs k <= j
                      < c + col_offset bs k + shape_at (nth k bs no_block) 1)%nat)) ->
            get2 out' i j = get2 out i j).
Proof.
  induction 1 as [|a bs Ha Hbs IH]; intros out R C r c Hs Hl Hr Hc.
  - exists out. cbn [block_diag_place length]. repeat split; auto; intros; lia.
  - cbn [map sum_nat fold_right] in Hr, Hc.
    fold (sum_nat (map (fun a => shape_at a 0) bs)) in Hr.
    fold (sum_nat (map (fun a => shape_at a 1) bs)) in Hc.
    assert (Has : shape a = [shape_at a 0; shape_at a 1]).
    { unfold ndim in Ha. unfold shape_at.
      destruct (shape a) as [|x [|y [|z l]]]; try discriminate. reflexivity. }
    destruct (set_slice2_entries out a R C r c (shape_at a 0) (shape_at a 1)
                Hs Hl Has ltac:(lia) ltac:(lia))
      as (out1 & H1 & Hs1 & Hd1 & Hl1 & He1).
    destruct (IH out1 R C (r + shape_at a 0)%nat (c + shape_at a 1)%nat
                Hs1 Hl1 ltac:(lia) ltac:(lia))
      as (out' & H' & Hs' & Hd' & Hl' & Hin' & Hout').
    exists out'. cbn [block_diag_place]. rewrite H1. cbn [bind].
    split; [exact H'|]. split; [exact Hs'|]. split; [congruence|].
    split; [exact Hl'|]. split.
    + intros k p q Hk Hp Hq. destruct k as [|k].
      * cbn [nth] in Hp, Hq |- *.
        cbn [row_offset col_offset firstn map sum_nat fold_right].
        rewrite !Nat.add_0_r.
        rewrite Hout'.
        -- rewrite He1 by lia.
           replace ((r <=? r + p) && (r + p <? r + shape_at a 0)
                    && (c <=? c + q) && (c + q <? c + shape_at a 1))%nat with true.
           ++ replace (r + p - r)%nat with p by lia.
              replace (c + q - c)%nat with q by lia. reflexivity.
           ++ symmetry. rewrite !andb_true_iff, !Nat.leb_le, !Nat.ltb_lt. lia.
        -- lia.
        -- lia.
        -- intros k Hk'. lia.
      * cbn [nth] in Hp, Hq |- *. cbn [length] in Hk.
        rewrite row_offset_cons, col_offset_cons.
        rewrite <- Hd1, <- (Hin' k p q) by (assumption || lia).
        f_equal; lia.
    + intros i j Hi Hj Hno.
      rewrite Hout'.
      * rewrite He1 by assumption.
        specialize (Hno 0%nat ltac:(cbn [length]; lia)).
        cbn [nth row_offset col_offset firstn map sum_nat fold_right] in Hno.
        destruct ((r <=? i) && (i <? r + shape_at a 0)
                  && (c <=? j) && (j <? c + shape_at a 1))%nat eqn:Hw;
          [|reflexivity].
        rewrite !andb_true_iff, !Nat.leb_le, !Nat.ltb_lt in Hw. lia.
      * assumption.
      * assumption.
      * intros k Hk. specialize (Hno (S k) ltac:(cbn [length]; lia)).
        rewrite row_offset_cons, col_offset_cons in Hno. cbn [nth] in Hno. lia.
Qed.

(** ** block_diag *)

Lemma ndim_atleast_2d (a : ndarray) : ndim (atleast_2d a) = Nat.max 2 (ndim a).
Proof.
  unfold atleast_2d, ndim. destruct (shape a) as [|x [|y l]] eqn:Hs;
    cbn [shape length]; rewrite ?Hs; cbn [length]; lia.
Qed.

Lemma dtype_atleast_2d (a : ndarray) : dtype_of (atleast_2d a) = dtype_of a.
Proof.
  unfold atleast_2d. destruct (shape a) as [|x [|y l]]; reflexivity.
Qed.

Lemma filter_none {A} (f : A -> bool) (l : list A) :
  (forall x, In x l -> f x = false) -> filter f l = [].
Proof.
  induction l as [|x l IH]; intros H; simpl; [reflexivity|].
  rewrite H by (simpl; auto). apply IH. intros y Hy. apply H. simpl. auto.
Qed.

(** The positions reported by [block_diag], computed on the blocks as given. *)
Lemma bad_args_normalized (arrs : list ndarray) :
  filter (fun k => (2 <? ndim (nth k (normalize_blocks arrs) no_block))%nat)
         (seq 0 (length (normalize_blocks arrs)))
  = filter (fun k => (2 <? ndim (nth k arrs no_block))%nat) (seq 0 (length arrs)).
Proof.
  destruct arrs as [|a arrs]; [reflexivity|].
  unfold normalize_blocks. rewrite length_map.
  apply filter_ext_in. intros k Hk. apply in_seq in Hk.
  rewrite (nth_map_in _ _ _ _ no_block) by lia.
  rewrite ndim_atleast_2d.
  destruct (Nat.ltb_spec 2 (ndim (nth k (a :: arrs) no_block)));
    [apply Nat.ltb_lt | apply Nat.ltb_ge]; lia.
Qed.

Lemma block_diag_unfold (arrs : list ndarray) :
  block_diag arrs =
  let bad_args :=
    filter (fun k => (2 <? ndim (nth k arrs no_block))%nat) (seq 0 (length arrs)) in
  match bad_args with
  | _ :: _ => Raise (ValueError_block_diag bad_args)
  | [] =>
      block_diag_place (normalize_blocks arrs)
        (zeros [sum_nat (map (fun a => shape_at a 0) (normalize_blocks arrs));
                sum_nat (map (fun a => shape_at a 1) (normalize_blocks arrs))]
               (dtype_of (hd no_block (normalize_blocks arrs))))
        0 0
  end.
Proof.
  rewrite <- bad_args_normalized. unfold block_diag. fold (normalize_blocks arrs).
  fold no_block. rewrite !map_map. reflexivity.
Qed.

Lemma in_bad_args (arrs : list ndarray) (k : nat) :
  In k (filter (fun k => (2 <? ndim (nth k arrs no_block))%nat) (seq 0 (length arrs)))
  <-> (k < length arrs)%nat /\ (2 < ndim (nth k arrs no_block))%nat.
Proof.
  rewrite filter_In, in_seq, Nat.ltb_lt. lia.
Qed.

Lemma normalize_blocks_2d (arrs : list ndarray) :
  Forall (fun a => (ndim a <= 2)%nat) arrs ->
  Forall (fun a => ndim a = 2%nat) (normalize_blocks arrs).
Proof.
  intros H. unfold normalize_blocks. destruct arrs as [|a arrs].
  - repeat constructor.
  - apply Forall_map. eapply Forall_impl; [|exact H].
    cbv beta. intros b Hb. rewrite ndim_atleast_2d. lia.
Qed.

Lemma block_diag_entries (arrs : list ndarray) :
  Forall (fun a => (ndim a <= 2)%nat) arrs ->
  let bs := normalize_blocks arrs in
  let R := sum_nat (map (fun a => shape_at a 0) bs) in
  let C := sum_nat (map (fun a => shape_at a 1) bs) in
  exists out, block_diag arrs = Ok out
    /\ shape out = [R; C]
    /\ dtype_of out = dtype_of (hd (array1 dt_float []) arrs)
    /\ (forall k p q, (k < length bs)%nat ->
          (p < shape_at (nth k bs no_block) 0)%nat ->
          (q < shape_at (nth k bs no_block) 1)%nat ->
          get2 out (row_offset bs k + p) (col_offset bs k + q)
          = cast (dtype_of out) (get2 (nth k bs no_block) p q))
    /\ (forall i j, (i < R)%nat -> (j < C)%nat ->
          (forall k, (k < length bs)%nat -> ~ in_block bs k i j) ->
          get2 out i j = 0).
Proof.
  intros Hall bs R C.
  rewrite block_diag_unfold. cbv zeta.
  rewrite filter_none.
  2:{ intros k Hk. apply in_seq in Hk. apply Nat.ltb_ge.
      rewrite Forall_forall in Hall. apply Hall, nth_In. lia. }
  fold bs. fold R. fold C.
  set (out0 := zeros [R; C] (dtype_of (hd no_block bs))).
  destruct (block_diag_place_spec bs (normalize_blocks_2d arrs Hall) out0 R C 0 0)
    as (out & Hout & Hs & Hd & _ & Hin & Hno).
  - reflexivity.
  - unfold out0, zeros. cbn [data prod_shape fold_right].
    rewrite repeat_length. lia.
  - lia.
  - lia.
  - exists out. split; [exact Hout|]. split; [exact Hs|].
    assert (Hd0 : dtype_of out0 = dtype_of (hd (array1 dt_float []) arrs)).
    { unfold out0, bs, normalize_blocks. cbn [zeros dtype_of].
      destruct arrs as [|a arrs]; [reflexivity|].
      cbn [map hd]. apply dtype_atleast_2d. }
    split; [congruence|]. split.
    + intros k p q Hk Hp Hq. rewrite Hd. apply (Hin k p q Hk Hp Hq).
    + intros i j Hi Hj Hfree. rewrite Hno by assumption.
      unfold get2, out0, zeros. cbn [data]. apply nth_repeat.
Qed.


(** ** The claims on block_diag *)



(** C9: [block_diag] raises its ValueError exactly when some block has more
    than two dimensions; the error carries the positions, counted from 0 and
    in increasing order, of all such blocks and of no other; and whenever it
    does not raise it returns the assembled array. *)
Theorem block_diag_validation (arrs : list ndarray) :
  let bad_args :=
    filter (fun k => (2 <? ndim (nth k arrs no_block))%nat) (seq 0 (length arrs)) in
  (forall k, In k bad_args <-> (k < length arrs)%nat /\ (2 < ndim (nth k arrs no_block))%nat)
  /\ ((exists k, (k < length arrs)%nat /\ (2 < ndim (nth k arrs no_block))%nat) ->
      block_diag arrs = Raise (ValueError_block_diag bad_args))
  /\ ((exists e, block_diag arrs = Raise e) ->
      exists k, (k < length arrs)%nat /\ (2 < ndim (nth k arrs no_block))%nat)
  /\ (~ (exists k, (k < length arrs)%nat /\ (2 < ndim (nth k arrs no_block))%nat) ->
      exists out, block_diag arrs = Ok out).
Proof.
  intros bad_args.
  assert (Hok : bad_args = [] -> exists out, block_diag arrs = Ok out).
  { intros Hnil.
    assert (Hall : Forall (fun a => (ndim a <= 2)%nat) arrs).
    { apply Forall_forall. intros a Ha.
      destruct (In_nth _ _ no_block Ha) as (k & Hk & <-).
      destruct (Nat.le_gt_cases (ndim (nth k arrs no_block)) 2) as [Hle|Hgt];
        [exact Hle|].
      assert (Hin : In k bad_args) by (apply in_bad_args; split; assumption).
      rewrite Hnil in Hin. destruct Hin. }
    destruct (block_diag_entries arrs Hall) as (out & Hout & _).
    exists out. exact Hout. }
  split; [apply in_bad_args|]. split; [|split].
  - intros (k & Hk & Hnd). rewrite block_diag_unfold. cbv zeta. fold bad_args.
    assert (Hin : In k bad_args) by (apply in_bad_args; split; assumption).
    destruct bad_args; [destruct Hin | reflexivity].
  - intros (e & He). destruct bad_args as [|k l] eqn:Hb.
    + destruct (Hok eq_refl) as (out & Hout). congruence.
    + exists k. apply in_bad_args. fold bad_args. rewrite Hb. left. reflexivity.
  - intros Hnone. apply Hok. destruct bad_args as [|k l] eqn:Hb; [reflexivity|].
    exfalso. apply Hnone. exists k. apply in_bad_args. fold bad_args.
    rewrite Hb. left. reflexivity.
Qed.

(** * Further properties of the module *)

(** ** tril and triu at any diagonal *)

Lemma elementwise_values_ok (f : Z -> Z -> Z) (a b c : ndarray) :
  elementwise f a b = Ok c -> values_ok c.
Proof.
  unfold elementwise. destruct (list_eqb (shape a) (shape b)); [|discriminate].
  intros Hc. injection Hc as <-. unfold values_ok. cbn [dtype_of data].
  apply Forall_forall. intros v Hv. apply in_map_iff in Hv.
  destruct Hv as (p & <- & _). apply cast_idem.
Qed.

Lemma tril_zeroes_above_aux (m : ndarray) (R C : nat) (k : Z) :
  wf m -> shape m = [R; C] ->
  Z.of_nat R < 2 ^ 63 -> Z.of_nat C < 2 ^ 63 ->
  exists L, tril m k = Ok L /\ shape L = [R; C] /\ dtype_of L = dtype_of m /\ wf L.
Proof.
  intros Hwf Hs HR HC.
  destruct (tril_entries m R C Hwf Hs HR HC k) as (L & HL & HLs & HLd & HLn & _).
  exists L. split; [exact HL|]. split; [exact HLs|]. split; [exact HLd|]. split.
  - rewrite HLn, HLs. simpl. lia.
  - unfold tril in HL. destruct (ndim m <? 2)%nat; [discriminate|].
    apply (elementwise_values_ok _ _ _ _ HL).
Qed.

(** X1: for a boolean or integer array [m], [tril(m, k)] is a copy of [m],
    of the same shape and element type, with the elements above the [k]-th
    diagonal zeroed. *)
Theorem tril_zeroes_above (m : ndarray) (R C : nat) (k : Z) :
  wf m -> shape m = [R; C] -> dtype_of m <> dt_float ->
  Z.of_nat R < 2 ^ 63 -> Z.of_nat C < 2 ^ 63 ->
  exists L, tril m k = Ok L /\ shape L = shape m /\ dtype_of L = dtype_of m /\ wf L
    /\ forall i j, (i < R)%nat -> (j < C)%nat ->
         (Z.of_nat j <= Z.of_nat i + k -> get2 L i j = get2 m i j)
         /\ (Z.of_nat i + k < Z.of_nat j -> get2 L i j = 0).
Proof.
  intros Hwf Hs _ HR HC.
  destruct (tril_entries m R C Hwf Hs HR HC k) as (L & HL & HLs & HLd & HLn & HLe).
  exists L. split; [exact HL|]. split; [congruence|]. split; [exact HLd|]. split.
  - split.
    + rewrite HLn, HLs. simpl. lia.
    + unfold tril in HL. destruct (ndim m <? 2)%nat; [discriminate|].
      apply (elementwise_values_ok _ _ _ _ HL).
  - intros i j Hi Hj. rewrite (HLe i j Hi Hj).
    destruct (Z.leb_spec (Z.of_nat j) (Z.of_nat i + k)); split; intros; try lia;
      reflexivity.
Qed.

Lemma tril_zeroes_above_witness :
  exists L, tril m43 (-1) = Ok L /\ shape L = shape m43
    /\ get2 L 2 1 = get2 m43 2 1 /\ get2 L 1 1 = 0.
Proof.
  destruct (tril_zeroes_above m43 4 3 (-1) m43_wf eq_refl)
    as (L & HL & Hs & _ & _ & He).
  - discriminate.
  - int64_consts. vm_compute. reflexivity.
  - int64_consts. vm_compute. reflexivity.
  - exists L. split; [exact HL|]. split; [exact Hs|]. split.
    + apply (He 2%nat 1%nat); vm_compute; intros; try lia; discriminate.
    + apply (He 1%nat 1%nat); vm_compute; intros; try lia; reflexivity.
Defined.

(** X2: for a boolean or integer array [m], [triu(m, k)] has the shape of
    [m] and its elements on and above the [k]-th diagonal, zero below it; its
    element type is that of [1 - mask], so a boolean [m] gives an integer
    result. *)
Theorem triu_zeroes_below (m : ndarray) (R C : nat) (k : Z) :
  wf m -> shape m = [R; C] -> dtype_of m <> dt_float ->
  Z.of_nat R < 2 ^ 63 -> Z.of_nat C < 2 ^ 63 ->
  exists U, triu m k = Ok U /\ shape U = shape m
    /\ dtype_of U = promote dt_int (dtype_of m) /\ wf U
    /\ forall i j, (i < R)%nat -> (j < C)%nat ->
         (Z.of_nat i + k <= Z.of_nat j -> get2 U i j = get2 m i j)
         /\ (Z.of_nat j < Z.of_nat i + k -> get2 U i j = 0).
Proof.
  intros Hwf Hs _ HR HC.
  destruct (triu_entries m R C Hwf Hs HR HC k) as (U & HU & HUs & HUd & HUn & HUe).
  exists U. split; [exact HU|]. split; [congruence|]. split; [exact HUd|]. split.
  - split.
    + rewrite HUn, HUs. simpl. lia.
    + unfold triu in HU. destruct (ndim m <? 2)%nat; [discriminate|].
      apply (elementwise_values_ok _ _ _ _ HU).
  - intros i j Hi Hj. rewrite (HUe i j Hi Hj).
    destruct (Z.leb_spec (Z.of_nat j) (Z.of_nat i + (k - 1))); split; intros;
      try lia; reflexivity.
Qed.

Lemma triu_zeroes_below_witness :
  exists U, triu m43 (-1) = Ok U /\ shape U = shape m43
    /\ get2 U 2 1 = get2 m43 2 1 /\ get2 U 2 0 = 0.
Proof.
  destruct (triu_zeroes_below m43 4 3 (-1) m43_wf eq_refl)
    as (U & HU & Hs & _ & _ & He).
  - discriminate.
  - int64_consts. vm_compute. reflexivity.
  - int64_consts. vm_compute. reflexivity.
  - exists U. split; [exact HU|]. split; [exact Hs|]. split.
    + apply (He 2%nat 1%nat); vm_compute; intros; try lia; discriminate.
    + apply (He 2%nat 0%nat); vm_compute; intros; try lia; reflexivity.
Defined.

(** X3: for a boolean or integer array [m] and every diagonal [k],
    [tril(m, k) + triu(m, k + 1)] gives back the elements of [m]: each element
    is kept by one of the two and zeroed by the other. *)
Theorem tril_triu_split (m : ndarray) (R C : nat) (k : Z) :
  wf m -> shape m = [R; C] -> dtype_of m <> dt_float ->
  Z.of_nat R < 2 ^ 63 -> Z.of_nat C < 2 ^ 63 ->
  exists L U S,
    tril m k = Ok L /\ triu m (k + 1) = Ok U /\ add L U = Ok S
    /\ shape S = shape m /\ data S = data m
    /\ forall i j, (i < R)%nat -> (j < C)%nat -> get2 L i j = 0 \/ get2 U i j = 0.
Proof.
  intros Hwf Hs _ HR HC.
  destruct (tril_entries m R C Hwf Hs HR HC k) as (L & HL & HLs & HLd & HLn & HLe).
  destruct (triu_entries m R C Hwf Hs HR HC (k + 1))
    as (U & HU & HUs & HUd & HUn & HUe).
  pose proof (m_length m R C Hwf Hs) as Hmn.
  exists L, U. eexists.
  split; [exact HL|]. split; [exact HU|].
  unfold add. rewrite elementwise_ok by congruence.
  split; [reflexivity|]. cbn [shape data].
  split; [congruence|]. split.
  - apply (rows_ext R C); [rewrite length_map, length_combine; lia | exact Hmn |].
    intros i j Hi Hj. pose proof (flat_index_lt R C i j Hi Hj) as Hidx.
    rewrite nth_combine_map by lia. cbn [fst snd].
    specialize (HLe i j Hi Hj). specialize (HUe i j Hi Hj).
    unfold get2, shape_at in HLe, HUe. rewrite HLs in HLe. rewrite HUs in HUe.
    rewrite Hs in HLe, HUe. cbn [nth] in HLe, HUe.
    rewrite HLe, HUe, HLd, HUd, promote_absorb_int.
    replace (Z.of_nat i + (k + 1 - 1)) with (Z.of_nat i + k) by lia.
    destruct (Z.of_nat j <=? Z.of_nat i + k).
    + rewrite Z.add_0_r. apply cast_promote_int, wf_nth, Hwf.
    + rewrite Z.add_0_l. apply cast_promote_int, wf_nth, Hwf.
  - intros i j Hi Hj. rewrite (HLe i j Hi Hj), (HUe i j Hi Hj).
    replace (Z.of_nat i + (k + 1 - 1)) with (Z.of_nat i + k) by lia.
    destruct (Z.of_nat j <=? Z.of_nat i + k); auto.
Qed.

Lemma tril_triu_split_witness :
  exists L U S,
    tril m43 (-1) = Ok L /\ triu m43 (-1 + 1) = Ok U /\ add L U = Ok S
    /\ shape S = shape m43 /\ data S = data m43
    /\ forall i j, (i < 4)%nat -> (j < 3)%nat -> get2 L i j = 0 \/ get2 U i j = 0.
Proof.
  apply (tril_triu_split m43 4 3 (-1) m43_wf eq_refl).
  - discriminate.
  - int64_consts. vm_compute. reflexivity.
  - int64_consts. vm_compute. reflexivity.
Defined.

Lemma ndarray_ext (a b : ndarray) :
  shape a = shape b -> dtype_of a = dtype_of b -> data a = data b -> a = b.
Proof. destruct a, b. cbn. intros -> -> ->. reflexivity. Qed.

(** X4: clipping twice is clipping at the lower of the two diagonals:
    [tril(tril(m, k1), k2)] is [tril(m, min(k1, k2))]. *)
Theorem tril_tril (m : ndarray) (R C : nat) (k1 k2 : Z) :
  wf m -> shape m = [R; C] ->
  Z.of_nat R < 2 ^ 63 -> Z.of_nat C < 2 ^ 63 ->
  exists L1 L, tril m k1 = Ok L1 /\ tril L1 k2 = Ok L
    /\ tril m (Z.min k1 k2) = Ok L.
Proof.
  intros Hwf Hs HR HC.
  destruct (tril_zeroes_above_aux m R C k1 Hwf Hs HR HC)
    as (L1 & HL1 & Hs1 & Hd1 & Hwf1).
  destruct (tril_entries m R C Hwf Hs HR HC k1) as (L1' & HL1' & _ & _ & _ & He1).
  assert (L1' = L1) by congruence. subst L1'.
  destruct (tril_entries L1 R C Hwf1 Hs1 HR HC k2)
    as (L & HL & HLs & HLd & HLn & HLe).
  destruct (tril_entries m R C Hwf Hs HR HC (Z.min k1 k2))
    as (L3 & HL3 & HL3s & HL3d & HL3n & HL3e).
  exists L1, L. split; [exact HL1|]. split; [exact HL|].
  rewrite HL3. f_equal. apply ndarray_ext; [congruence | congruence |].
  apply (rows_ext R C); [assumption | assumption |].
  intros i j Hi Hj.
  specialize (HLe i j Hi Hj). specialize (HL3e i j Hi Hj).
  specialize (He1 i j Hi Hj).
  unfold get2, shape_at in HLe, HL3e, He1.
  rewrite HLs, Hs1 in HLe. rewrite HL3s, Hs in HL3e. rewrite Hs1, Hs in He1.
  cbn [nth] in HLe, HL3e, He1.
  rewrite HL3e, HLe, He1.
  destruct (Z.leb_spec (Z.of_nat j) (Z.of_nat i + k1)),
           (Z.leb_spec (Z.of_nat j) (Z.of_nat i + k2)),
           (Z.leb_spec (Z.of_nat j) (Z.of_nat i + Z.min k1 k2));
    try reflexivity; lia.
Qed.

Lemma tril_tril_witness :
  exists L1 L, tril m43 0 = Ok L1 /\ tril L1 (-1) = Ok L
    /\ tril m43 (Z.min 0 (-1)) = Ok L.
Proof.
  apply (tril_tril m43 4 3 0 (-1) m43_wf eq_refl).
  - int64_consts. vm_compute. reflexivity.
  - int64_consts. vm_compute. reflexivity.
Defined.

(** ** toeplitz and hankel in closed form *)

Lemma nth_tl (l : list Z) (k : nat) : nth k (tl l) 0 = nth (S k) l 0.
Proof. destruct l; [destruct k; reflexivity | reflexivity]. Qed.

Lemma toeplitz_closed_aux (c r : ndarray) (nc nr : nat) :
  wf c -> wf r -> shape c = [nc] -> shape r = [nr] -> (0 < nr)%nat ->
  Z.of_nat (nc + nr) <= 2 ^ 63 ->
  exists A, toeplitz c (Some r) = Ok A /\ shape A = [nc; nr]
    /\ forall i j, (i < nc)%nat -> (j < nr)%nat ->
         get2 A i j = if (j <=? i)%nat then get1 c (i - j) else get1 r (j - i).
Proof.
  intros Hc Hr Hcs Hrs Hnr Hsmall.
  destruct (toeplitz_entries c r nc nr Hc Hr Hcs Hrs Hnr Hsmall) as (A & HA & HAs & HAe).
  exists A. split; [exact HA|]. split; [exact HAs|].
  intros i j Hi Hj. rewrite (HAe i j Hi Hj).
  pose proof (length_1d r nr Hr Hrs) as Hlr.
  assert (Hlt : length (rev (tl (data r))) = (nr - 1)%nat).
  { rewrite length_rev. destruct (data r); simpl in *; lia. }
  unfold get1. destruct (Nat.leb_spec j i) as [Hle|Hgt].
  - rewrite app_nth2 by lia. rewrite Hlt. f_equal. lia.
  - rewrite app_nth1 by lia.
    rewrite rev_nth by (rewrite length_rev in Hlt; lia).
    rewrite length_rev in Hlt. rewrite Hlt, nth_tl. f_equal. lia.
Qed.

(** X6: for [c] and [r] between whose element types nothing is converted
    through float64, [toeplitz(c, r)[i, j]] is [c[i - j]] on and below the
    diagonal and [r[j - i]] above it: the first column is [c], the first row is [c[0]]
    followed by [r[1:]], and [r[0]] is never read. *)
Theorem toeplitz_closed_form (c r : ndarray) (nc nr : nat) :
  wf c -> wf r -> shape c = [nc] -> shape r = [nr] ->
  no_float_conversion (dtype_of c) (dtype_of r) -> (0 < nr)%nat ->
  Z.of_nat (nc + nr) <= 2 ^ 63 ->
  exists A, toeplitz c (Some r) = Ok A
    /\ (forall i j, (i < nc)%nat -> (j < nr)%nat ->
          get2 A i j = if (j <=? i)%nat then get1 c (i - j) else get1 r (j - i))
    /\ (forall i, (i < nc)%nat -> get2 A i 0 = get1 c i)
    /\ (forall j, (0 < nc)%nat -> (0 < j < nr)%nat -> get2 A 0 j = get1 r j).
Proof.
  intros Hc Hr Hcs Hrs _ Hnr Hsmall.
  destruct (toeplitz_closed_aux c r nc nr Hc Hr Hcs Hrs Hnr Hsmall)
    as (A & HA & _ & HAe).
  exists A. split; [exact HA|]. split; [exact HAe|]. split.
  - intros i Hi. rewrite HAe by lia. cbn [Nat.leb]. f_equal. lia.
  - intros j Hnc Hj. rewrite HAe by lia.
    destruct j as [|j]; [lia|]. cbn [Nat.leb]. reflexivity.
Qed.

Lemma toeplitz_closed_form_witness :
  exists A, toeplitz (array1 dt_int [1; 2; 3]) (Some (array1 dt_int [9; 4; 5; 6])) = Ok A
    /\ get2 A 2 0 = get1 (array1 dt_int [1; 2; 3]) 2
    /\ get2 A 0 3 = get1 (array1 dt_int [9; 4; 5; 6]) 3.
Proof.
  destruct (toeplitz_closed_form (array1 dt_int [1; 2; 3])
              (array1 dt_int [9; 4; 5; 6]) 3 4) as (A & HA & _ & Hc & Hr).
  - split; [reflexivity | repeat constructor].
  - split; [reflexivity | repeat constructor].
  - reflexivity.
  - reflexivity.
  - left. reflexivity.
  - lia.
  - int64_consts. vm_compute. discriminate.
  - exists A. split; [exact HA|]. split.
    + apply Hc. lia.
    + apply Hr; lia.
Defined.

(** X7: with [r] omitted (and real elements, whose conjugate is themselves),
    [toeplitz(c)] is symmetric: its entry [(i, j)] is [c[|i - j|]]. *)
Theorem toeplitz_symmetric (c : ndarray) (nc : nat) :
  wf c -> shape c = [nc] -> (0 < nc)%nat -> Z.of_nat (nc + nc) <= 2 ^ 63 ->
  exists A, toeplitz c None = Ok A /\ shape A = [nc; nc]
    /\ forall i j, (i < nc)%nat -> (j < nc)%nat ->
         get2 A i j = get1 c (Nat.max i j - Nat.min i j)
         /\ get2 A i j = get2 A j i.
Proof.
  intros Hc Hcs Hnc Hsmall.
  destruct (toeplitz_closed_aux c c nc nc Hc Hc Hcs Hcs Hnc Hsmall)
    as (A & HA & HAs & HAe).
  exists A. split; [exact HA|]. split; [exact HAs|].
  assert (Hf : forall i j, (i < nc)%nat -> (j < nc)%nat ->
                 get2 A i j = get1 c (Nat.max i j - Nat.min i j)).
  { intros i j Hi Hj. rewrite (HAe i j Hi Hj).
    destruct (Nat.leb_spec j i); f_equal; lia. }
  intros i j Hi Hj. split; [apply Hf; assumption|].
  rewrite (Hf i j), (Hf j i) by assumption. f_equal. lia.
Qed.

Lemma toeplitz_symmetric_witness :
  exists A, toeplitz (array1 dt_int [1; 2; 3]) None = Ok A
    /\ get2 A 0 2 = get2 A 2 0.
Proof.
  destruct (toeplitz_symmetric (array1 dt_int [1; 2; 3]) 3) as (A & HA & _ & He).
  - split; [reflexivity | repeat constructor].
  - reflexivity.
  - lia.
  - int64_consts. vm_compute. discriminate.
  - exists A. split; [exact HA|]. apply (He 0%nat 2%nat); lia.
Defined.

(** X8: for [c] and [r] between whose element types nothing is converted
    through float64, [hankel(c, r)[i, j]] is [c[i + j]] while
    [i + j < len(c)] and [r[i + j - len(c) + 1]] beyond: the first column is [c] and the last row
    is [c[-1]] followed by [r[1:]].  With [r] omitted the entries beyond [c]
    are zero. *)
Theorem hankel_closed_form :
  (forall (c r : ndarray) (nc nr : nat),
     wf c -> wf r -> shape c = [nc] -> shape r = [nr] ->
     no_float_conversion (dtype_of c) (dtype_of r) ->
     Z.of_nat (nc + nr) <= 2 ^ 63 ->
     exists A, hankel c (Some r) = Ok A
       /\ (forall i j, (i < nc)%nat -> (j < nr)%nat ->
             get2 A i j = if (i + j <? nc)%nat then get1 c (i + j)
                          else get1 r (i + j - nc + 1))
       /\ (forall i, (i < nc)%nat -> (0 < nr)%nat -> get2 A i 0 = get1 c i)
       /\ (forall j, (0 < nc)%nat -> (0 < j < nr)%nat ->
             get2 A (nc - 1) j = get1 r j))
  /\ (forall (c : ndarray) (nc : nat),
        wf c -> shape c = [nc] -> Z.of_nat (nc + nc) <= 2 ^ 63 ->
        exists A, hankel c None = Ok A
          /\ forall i j, (i < nc)%nat -> (j < nc)%nat ->
               get2 A i j = if (i + j <? nc)%nat then get1 c (i + j) else 0).
Proof.
  split.
  - intros c r nc nr Hc Hr Hcs Hrs _ Hsmall.
    destruct (ravel_1d r nr Hr Hrs) as (H1 & H2 & H3).
    destruct (hankel_entries c (Some r) nc nr Hc Hcs H1 H2 H3 Hsmall)
      as (A & HA & _ & HAe).
    cbn [ravel data] in HAe.
    pose proof (length_1d c nc Hc Hcs) as Hlc.
    assert (Hf : forall i j, (i < nc)%nat -> (j < nr)%nat ->
                   get2 A i j = if (i + j <? nc)%nat then get1 c (i + j)
                                else get1 r (i + j - nc + 1)).
    { intros i j Hi Hj. rewrite (HAe i j Hi Hj). unfold get1.
      destruct (Nat.ltb_spec (i + j) nc).
      - rewrite app_nth1 by lia. reflexivity.
      - rewrite app_nth2 by lia. rewrite Hlc, nth_tl. f_equal. lia. }
    exists A. split; [exact HA|]. split; [exact Hf|]. split.
    + intros i Hi Hnr. rewrite Hf by lia. rewrite Nat.add_0_r.
      replace (i <? nc)%nat with true by (symmetry; apply Nat.ltb_lt; lia).
      reflexivity.
    + intros j Hnc Hj. rewrite Hf by lia.
      replace (nc - 1 + j <? nc)%nat with false by (symmetry; apply Nat.ltb_ge; lia).
      f_equal. lia.
  - intros c nc Hc Hcs Hsmall.
    destruct (zeros_like_1d c nc Hcs) as (H1 & H2 & H3).
    destruct (hankel_entries c None nc nc Hc Hcs H1 H2 H3 Hsmall)
      as (A & HA & _ & HAe).
    pose proof (length_1d c nc Hc Hcs) as Hlc.
    exists A. split; [exact HA|].
    intros i j Hi Hj. rewrite (HAe i j Hi Hj). unfold get1.
    destruct (Nat.ltb_spec (i + j) nc).
    + rewrite app_nth1 by lia. reflexivity.
    + rewrite app_nth2 by lia. apply nth_tl_repeat_0.
Qed.

Lemma hankel_closed_form_witness :
  (exists A, hankel (array1 dt_int [1; 2; 3; 4]) (Some (array1 dt_int [4; 7; 7; 8; 9])) = Ok A
     /\ get2 A (4 - 1) 2 = get1 (array1 dt_int [4; 7; 7; 8; 9]) 2)
  /\ (exists A, hankel (array1 dt_int [1; 17; 99]) None = Ok A
        /\ get2 A 1 1 = if (1 + 1 <? 3)%nat then get1 (array1 dt_int [1; 17; 99]) (1 + 1)
                        else 0).
Proof.
  split.
  - destruct (proj1 hankel_closed_form (array1 dt_int [1; 2; 3; 4])
                (array1 dt_int [4; 7; 7; 8; 9]) 4%nat 5%nat) as (A & HA & _ & _ & Hr).
    + split; [reflexivity | repeat constructor].
    + split; [reflexivity | repeat constructor].
    + reflexivity.
    + reflexivity.
    + left. reflexivity.
    + int64_consts. vm_compute. discriminate.
    + exists A. split; [exact HA|]. apply Hr; lia.
  - destruct (proj2 hankel_closed_form (array1 dt_int [1; 17; 99]) 3%nat)
      as (A & HA & He).
    + split; [reflexivity | repeat constructor].
    + reflexivity.
    + int64_consts. vm_compute. discriminate.
    + exists A. split; [exact HA|]. apply (He 1%nat 1%nat); lia.
Defined.

(** ** circulant *)

Lemma index1_wrap (vals : ndarray) (ix : Z) :
  - Z.of_nat (len vals) <= ix < Z.of_nat (len vals) ->
  index1 vals ix = Ok (nth (Z.to_nat (ix mod Z.of_nat (len vals))) (data vals) 0).
Proof.
  intros H. unfold index1. set (n := Z.of_nat (len vals)) in *.
  destruct (Z.leb_spec 0 ix) as [Hpos|Hneg]; cbn [andb].
  - replace (ix <? n) with true by (symmetry; apply Z.ltb_lt; lia).
    rewrite Z.mod_small by lia. reflexivity.
  - replace (- n <=? ix) with true by (symmetry; apply Z.leb_le; lia).
    replace (ix <? 0) with true by (symmetry; apply Z.ltb_lt; lia).
    cbn [andb]. replace (ix mod n) with (ix + n); [reflexivity|].
    replace (ix + n) with (ix + 1 * n) by lia.
    rewrite <- (Z.mod_small (ix + 1 * n) n) by lia.
    apply Z.mod_add. lia.
Qed.

Section Circulant.
Variable c : ndarray.
Variable n : nat.
Hypothesis c_shape : shape c = [n].
Hypothesis n_small : Z.of_nat n <= 2 ^ 63.

Lemma circulant_value :
  circulant c =
  Ok (mk_ndarray [n; n] (dtype_of c)
        (flat_map
           (fun x => map (fun y => nth (Z.to_nat ((x + y) mod Z.of_nat n)) (data c) 0)
                         (data (arange_down 0 (- Z.of_nat n))))
           (data (arange (Z.of_nat n))))).
Proof.
  unfold circulant, ravel, len. cbn [shape dtype_of data].
  rewrite c_shape. cbn [prod_shape fold_right nth]. rewrite !Nat.mul_1_r.
  unfold ogrid, add_col_row, len. cbn [arange arange_down shape dtype_of data nth].
  replace (Z.to_nat (0 - - Z.of_nat n)) with n by lia.
  rewrite Nat2Z.id. cbn [promote bind].
  unfold take, ndim. cbn [shape length Nat.eqb data outer_with dtype_of].
  rewrite (mapM_ok _ (fun ix => nth (Z.to_nat (ix mod Z.of_nat n)) (data c) 0)).
  - cbn [bind]. f_equal. f_equal. rewrite map_over_flat_map.
    apply flat_map_agree. intros x Hx. rewrite map_map.
    apply map_ext_in. intros y Hy. cbn [cast].
    apply in_map_iff in Hx. destruct Hx as (i & <- & Hi). apply in_seq in Hi.
    apply in_map_iff in Hy. destruct Hy as (j & <- & Hj). apply in_seq in Hj.
    rewrite wrap64_small by (int64_consts; lia). reflexivity.
  - intros ix Hix. apply in_flat_map in Hix. destruct Hix as (x & Hx & Hix).
    apply in_map_iff in Hix. destruct Hix as (y & <- & Hy). cbn [cast].
    apply in_map_iff in Hx. destruct Hx as (i & <- & Hi). apply in_seq in Hi.
    apply in_map_iff in Hy. destruct Hy as (j & <- & Hj). apply in_seq in Hj.
    rewrite wrap64_small by (int64_consts; lia).
    rewrite index1_wrap; unfold len; cbn [shape nth]; [reflexivity | lia].
Qed.

Lemma circulant_entries :
  exists A, circulant c = Ok A /\ shape A = [n; n] /\ dtype_of A = dtype_of c
    /\ forall i j, (i < n)%nat -> (j < n)%nat ->
         get2 A i j
         = get1 c (Z.to_nat ((Z.of_nat i - Z.of_nat j) mod Z.of_nat n)).
Proof.
  eexists. split; [apply circulant_value|]. repeat split.
  intros i j Hi Hj. unfold get2, shape_at, get1. cbn [shape data nth].
  rewrite (nth_flat_map_rows _ n _ i j 0)
    by (intros; rewrite ?length_map, ?length_arange, ?length_arange_down; lia).
  rewrite nth_arange by lia.
  rewrite (nth_map_in _ _ _ _ 0) by (rewrite length_arange_down; lia).
  rewrite nth_arange_down by lia.
  replace (Z.of_nat i + (0 - Z.of_nat j)) with (Z.of_nat i - Z.of_nat j) by lia.
  reflexivity.
Qed.
End Circulant.

(** X9: [circulant(c)] never raises: for a 1D [c] of length [n] it is
    the [n x n] array with [c[(i - j) mod n]] at [(i, j)] (the negative
    indices of the index table wrap around), so its first column is [c] and
    each column is the one before it rotated down by one. *)
Theorem circulant_spec (c : ndarray) (n : nat) :
  shape c = [n] -> Z.of_nat n <= 2 ^ 63 ->
  exists A, circulant c = Ok A /\ shape A = [n; n] /\ dtype_of A = dtype_of c
    /\ (forall i j, (i < n)%nat -> (j < n)%nat ->
          get2 A i j = get1 c (Z.to_nat ((Z.of_nat i - Z.of_nat j) mod Z.of_nat n)))
    /\ (forall i, (i < n)%nat -> get2 A i 0 = get1 c i)
    /\ (forall i j, (i < n)%nat -> (S j < n)%nat ->
          get2 A i (S j) = get2 A (if (i =? 0)%nat then n - 1 else i - 1)%nat j).
Proof.
  intros Hs Hn.
  destruct (circulant_entries c n Hs Hn) as (A & HA & HAs & HAd & HAe).
  exists A. split; [exact HA|]. split; [exact HAs|]. split; [exact HAd|].
  split; [exact HAe|]. split.
  - intros i Hi. rewrite HAe by lia. f_equal.
    rewrite Z.sub_0_r, Z.mod_small by lia. apply Nat2Z.id.
  - intros i j Hi Hj. rewrite !HAe by (destruct (Nat.eqb_spec i 0); lia).
    f_equal. f_equal.
    destruct (Nat.eqb_spec i 0) as [-> | Hne].
    + replace (Z.of_nat (n - 1) - Z.of_nat j)
        with (Z.of_nat 0 - Z.of_nat (S j) + 1 * Z.of_nat n) by lia.
      rewrite Z.mod_add by lia. reflexivity.
    + f_equal. lia.
Qed.

Lemma circulant_spec_witness :
  exists A, circulant (array1 dt_int [1; 2; 3]) = Ok A
    /\ get2 A 0 1 = get1 (array1 dt_int [1; 2; 3])
                      (Z.to_nat ((Z.of_nat 0 - Z.of_nat 1) mod Z.of_nat 3))
    /\ tolist2 A = [[1; 3; 2]; [2; 1; 3]; [3; 2; 1]].
Proof.
  destruct (circulant_spec (array1 dt_int [1; 2; 3]) 3) as (A & HA & _ & _ & He & _).
  - reflexivity.
  - int64_consts. vm_compute. discriminate.
  - exists A. split; [exact HA|]. split; [apply He; lia|].
    vm_compute in HA. injection HA as <-. reflexivity.
Defined.

(** ** The shape of Sylvester's matrices *)

Lemma sylvester_loop_symmetric (d : dtype) (steps : nat) :
  d <> dt_bool ->
  forall (s : nat) (H : ndarray),
    (0 < s)%nat -> hadamard_inv d s H ->
    (forall i j, (i < s)%nat -> (j < s)%nat -> get2 H i j = get2 H j i) ->
    (forall j, (j < s)%nat -> get2 H 0 j = 1) ->
    exists H', sylvester_loop steps H = Ok H'
      /\ hadamard_inv d (s * 2 ^ steps) H'
      /\ (forall i j, (i < s * 2 ^ steps)%nat -> (j < s * 2 ^ steps)%nat ->
            get2 H' i j = get2 H' j i)
      /\ (forall j, (j < s * 2 ^ steps)%nat -> get2 H' 0 j = 1).
Proof.
  intros Hd. induction steps as [|steps IH]; intros s H Hpos Hinv Hsym Hone.
  - exists H. replace (s * 2 ^ 0)%nat with s by (simpl; lia).
    split; [reflexivity|]. auto.
  - destruct (sylvester_step_inv d s H Hd Hinv) as (H1 & Hstep & Hinv1).
    destruct Hinv as (Hs & Hdt & Hl & Hpm & Horth).
    destruct (sylvester_step_entries H s d Hs Hdt Hd Hl Hpm)
      as (H1' & Hstep' & _ & _ & _ & He).
    assert (H1' = H1) by congruence. subst H1'.
    destruct (IH (s + s)%nat H1 ltac:(lia) Hinv1) as (H' & Hloop & Hinv' & Hsym' & Hone').
    + intros i j Hi Hj. rewrite !He by assumption. unfold sylvester_entry.
      destruct (Nat.ltb_spec i s), (Nat.ltb_spec j s);
        rewrite ?(Hsym i j), ?(Hsym i (j - s)%nat), ?(Hsym (i - s)%nat j),
                ?(Hsym (i - s)%nat (j - s)%nat) by lia; reflexivity.
    + intros j Hj. rewrite He by lia. unfold sylvester_entry.
      replace (0 <? s)%nat with true by (symmetry; apply Nat.ltb_lt; lia).
      destruct (Nat.ltb_spec j s); apply Hone; lia.
    + exists H'.
      replace (s * 2 ^ S steps)%nat with ((s + s) * 2 ^ steps)%nat
        by (rewrite Nat.pow_succ_r'; lia).
      split; [|auto]. cbn [sylvester_loop]. rewrite Hstep. exact Hloop.
Qed.

Lemma transpose_symmetric (H : ndarray) (s : nat) :
  shape H = [s; s] -> length (data H) = (s * s)%nat ->
  (forall i j, (i < s)%nat -> (j < s)%nat -> get2 H i j = get2 H j i) ->
  transpose H = H.
Proof.
  intros Hs Hl Hsym. apply ndarray_ext.
  - unfold transpose, shape_at. cbn [shape]. rewrite Hs. reflexivity.
  - reflexivity.
  - unfold transpose, shape_at. cbn [data]. rewrite Hs. cbn [nth].
    apply (rows_ext s s).
    + rewrite (length_flat_map_rows _ s), length_seq; [reflexivity|].
      intros x _. rewrite length_map, length_seq. reflexivity.
    + exact Hl.
    + intros i j Hi Hj.
      rewrite (nth_flat_map_rows _ s _ i j 0%nat)
        by (intros; rewrite ?length_map, ?length_seq; lia).
      rewrite (nth_map_in _ _ _ _ 0%nat) by (rewrite length_seq; lia).
      rewrite !nth_seq_0 by lia. rewrite Hsym by assumption.
      unfold get2, shape_at. rewrite Hs. reflexivity.
Qed.

(** X10: the matrix built by Sylvester's loop is symmetric, [transpose(H) = H],
    and normalised: its first row and its first column are all ones. *)
Theorem hadamard_symmetric (int_log2 : Z -> Z) (n : Z) :
  is_pow2 n -> int_log2 n = Z.log2 n ->
  exists H, hadamard int_log2 n dt_int = Ok H
    /\ transpose H = H
    /\ (forall j, (j < Z.to_nat n)%nat -> get2 H 0 j = 1)
    /\ (forall i, (i < Z.to_nat n)%nat -> get2 H i 0 = 1).
Proof.
  intros (k & Hk & ->) Hlog.
  rewrite Z.log2_pow2 in Hlog by assumption.
  assert (Hpos : 0 < 2 ^ k) by (apply Z.pow_pos_nonneg; lia).
  assert (Hdt : dt_int <> dt_bool) by discriminate.
  unfold hadamard.
  replace (2 ^ k <? 1) with false by (symmetry; apply Z.ltb_ge; lia).
  rewrite Hlog, Z.eqb_refl. cbn [negb].
  destruct (sylvester_loop_symmetric dt_int (Z.to_nat k) Hdt 1 (array2 dt_int [[1]]))
    as (H & Hloop & Hinv & Hsym & Hone).
  - lia.
  - apply hadamard_inv_base, Hdt.
  - intros i j Hi Hj. replace i with 0%nat by lia. replace j with 0%nat by lia.
    reflexivity.
  - intros j Hj. replace j with 0%nat by lia. reflexivity.
  - assert (Hsize : Z.to_nat (2 ^ k) = (1 * 2 ^ Z.to_nat k)%nat).
    { rewrite Nat.mul_1_l. apply Nat2Z.inj.
      rewrite Nat2Z.inj_pow, !Z2Nat.id by lia. reflexivity. }
    rewrite Hsize. destruct Hinv as (Hs & _ & Hl & _ & _).
    exists H. split; [exact Hloop|]. split.
    + apply (transpose_symmetric H _ Hs Hl Hsym).
    + split; [exact Hone|]. intros i Hi. rewrite Hsym by lia. apply Hone, Hi.
Qed.

Lemma hadamard_symmetric_witness :
  exists H, hadamard Z.log2 8 dt_int = Ok H
    /\ transpose H = H /\ get2 H 0 5 = 1 /\ get2 H 5 0 = 1.
Proof.
  destruct (hadamard_symmetric Z.log2 8) as (H & HH & Ht & Hr & Hc).
  - exists 3. split; [lia | reflexivity].
  - reflexivity.
  - exists H. split; [exact HH|]. split; [exact Ht|]. split.
    + apply Hr. vm_compute. lia.
    + apply Hc. vm_compute. lia.
Defined.

(** ** kron entry by entry, and on vectors *)

(** X11: the usual definition of the Kronecker product: for boolean or
    integer arrays [a] of shape [(M, N)] with [M, N >= 1] and [b] of shape
    [(P, Q)], [kron(a, b)[i, j]] is [a[i div P, j div Q] * b[i mod P, j mod Q]],
    computed in the promoted element type of [a] and [b] (the conjunction of
    two booleans, the 64-bit wrapping product otherwise). *)
Theorem kron_entrywise (a b : ndarray) (M N P Q : nat) :
  shape a = [M; N] -> shape b = [P; Q] ->
  dtype_of a <> dt_float -> dtype_of b <> dt_float ->
  length (data a) = (M * N)%nat -> length (data b) = (P * Q)%nat ->
  (0 < M)%nat -> (0 < N)%nat ->
  exists R, kron a b = Ok R
    /\ dtype_of R = promote (dtype_of a) (dtype_of b)
    /\ forall i j, (i < M * P)%nat -> (j < N * Q)%nat ->
         get2 R i j
         = cast (promote (dtype_of a) (dtype_of b))
             (get2 a (i / P) (j / Q) * get2 b (i mod P) (j mod Q)).
Proof.
  intros Ha Hb _ _ Hla Hlb HM HN.
  destruct (kron_entries a b M N P Q Ha Hb Hla Hlb HM HN) as (R & HR & Hs & Hd & He).
  exists R. split; [exact HR|]. split; [exact Hd|].
  intros i j Hi Hj.
  assert (HP : (P <> 0)%nat) by (intros ->; lia).
  assert (HQ : (Q <> 0)%nat) by (intros ->; lia).
  rewrite (Nat.div_mod_eq i P) at 1. rewrite (Nat.div_mod_eq j Q) at 1.
  rewrite (Nat.mul_comm P), (Nat.mul_comm Q).
  apply He.
  - apply Nat.Div0.div_lt_upper_bound. lia.
  - apply Nat.Div0.div_lt_upper_bound. lia.
  - apply Nat.mod_upper_bound, HP.
  - apply Nat.mod_upper_bound, HQ.
Qed.

Lemma kron_entrywise_witness :
  exists R, kron (array2 dt_int [[1; 2]; [3; 4]]) (array2 dt_int [[1; 2]; [3; 4]]) = Ok R
    /\ get2 R 3 2 = cast dt_int
                      (get2 (array2 dt_int [[1; 2]; [3; 4]]) (3 / 2) (2 / 2)
                       * get2 (array2 dt_int [[1; 2]; [3; 4]]) (3 mod 2) (2 mod 2)).
Proof.
  destruct (kron_entrywise (array2 dt_int [[1; 2]; [3; 4]])
              (array2 dt_int [[1; 2]; [3; 4]]) 2 2 2 2)
    as (R & HR & _ & He); try reflexivity; try lia; try discriminate.
  exists R. split; [exact HR|]. apply (He 3%nat 2%nat); lia.
Defined.

(** X12: [kron] is for 2D arrays only: given two 1D arrays, the pieces handed to
    [np.concatenate] have no axis 1 (or there is no piece at all) and the call
    raises. *)
Theorem kron_vectors_raise (a b : ndarray) (n m : nat) :
  shape a = [n] -> shape b = [m] ->
  kron a b = Raise ValueError_concatenate.
Proof.
  intros Ha Hb. unfold kron, contiguous. cbn [negb bind].
  unfold outer, outer_with, ravel, reshape. cbn [shape dtype_of data].
  rewrite Ha, Hb. cbn [app].
  replace (prod_shape [n; m] =? prod_shape [prod_shape [n]; prod_shape [m]])%nat
    with true by (symmetry; apply Nat.eqb_eq; cbn [prod_shape fold_right]; lia).
  cbn [bind]. unfold unstack. cbn [shape bind dtype_of data].
  destruct n as [|n]; [reflexivity|].
  rewrite <- cons_seq. cbn [map concatenate forallb same_off_axis ndim shape length].
  reflexivity.
Qed.

Lemma kron_vectors_raise_witness :
  kron (array1 dt_int [1; 2]) (array1 dt_int [3; 4; 5]) = Raise ValueError_concatenate.
Proof. apply (kron_vectors_raise _ _ 2 3); reflexivity. Defined.

(** ** block_diag of one block *)

(** X13: a single well-formed 2D block comes back as it is. *)
Theorem block_diag_single (a : ndarray) (R C : nat) :
  wf a -> shape a = [R; C] -> block_diag [a] = Ok a.
Proof.
  intros [Hl Hv] Hs.
  assert (Hnd : ndim a = 2%nat) by (unfold ndim; rewrite Hs; reflexivity).
  assert (Hn : normalize_blocks [a] = [a]).
  { unfold normalize_blocks, atleast_2d. cbn [map]. rewrite Hs. reflexivity. }
  rewrite block_diag_unfold. cbv zeta.
  rewrite filter_none
    by (intros k Hk; apply in_seq in Hk; cbn [length] in Hk;
        replace k with 0%nat by lia; cbn [nth]; rewrite Hnd; reflexivity).
  rewrite Hn. cbn [map hd sum_nat fold_right]. unfold shape_at. rewrite Hs. cbn [nth].
  rewrite !Nat.add_0_r.
  destruct (block_diag_place_spec [a] ltac:(repeat constructor; exact Hnd)
              (zeros [R; C] (dtype_of a)) R C 0 0)
    as (out & Hout & Hos & Hod & Hol & Hin & _).
  - reflexivity.
  - unfold zeros. cbn [data prod_shape fold_right]. rewrite repeat_length. lia.
  - cbn [map sum_nat fold_right]. unfold shape_at. rewrite Hs. cbn [nth]. lia.
  - cbn [map sum_nat fold_right]. unfold shape_at. rewrite Hs. cbn [nth]. lia.
  - rewrite Hout. f_equal. apply ndarray_ext; [congruence | exact Hod |].
    apply (rows_ext R C); [exact Hol | rewrite Hl, Hs; simpl; lia |].
    intros i j Hi Hj.
    specialize (Hin 0%nat i j ltac:(cbn [length]; lia)).
    cbn [nth row_offset col_offset firstn map sum_nat fold_right] in Hin.
    unfold shape_at in Hin. rewrite Hs in Hin. cbn [nth] in Hin.
    specialize (Hin Hi Hj). cbn [Nat.add zeros dtype_of] in Hin.
    unfold get2, shape_at in Hin. rewrite Hos, Hs in Hin. cbn [nth] in Hin.
    rewrite Hin. unfold values_ok in Hv. rewrite Forall_forall in Hv.
    apply Hv, nth_In. rewrite Hl, Hs. cbn [prod_shape fold_right]. nia.
Qed.

Lemma block_diag_single_witness : block_diag [m43] = Ok m43.
Proof. apply (block_diag_single m43 4 3 m43_wf eq_refl). Defined.

(** ** Empty vectors *)

Lemma flat_map_nil {A B} (l : list A) : flat_map (fun _ : A => @nil B) l = [].
Proof. induction l; simpl; auto. Qed.

Lemma toeplitz_empty_row (c r : ndarray) (nc : nat) :
  wf c -> wf r -> shape c = [nc] -> shape r = [0%nat] ->
  Z.of_nat nc <= 2 ^ 63 ->
  exists A, toeplitz c (Some r) = Ok A /\ shape A = [nc; 0%nat] /\ data A = [].
Proof.
  intros Hc Hr Hcs Hrs Hsmall.
  pose proof (length_1d c nc Hc Hcs) as Hlc.
  pose proof (length_1d r 0 Hr Hrs) as Hlr.
  apply length_zero_iff_nil in Hlr.
  unfold toeplitz, ravel, conjugate, len. cbn [shape dtype_of data].
  rewrite Hcs, Hrs. cbn [prod_shape fold_right nth Nat.mul].
  rewrite Nat.mul_1_r.
  rewrite (concatenate_axis0_pair _ _ 0 nc []).
  - cbn [bind].
    rewrite (gather_ogrid _ _ _ nc 0 (0 + nc)).
    + eexists. split; [reflexivity|]. split; [reflexivity|].
      cbn [data arange_down Z.of_nat Z.sub Z.to_nat seq map]. apply flat_map_nil.
    + reflexivity.
    + cbn [arange shape]. rewrite Nat2Z.id. reflexivity.
    + reflexivity.
    + reflexivity.
    + reflexivity.
    + rewrite length_arange. lia.
    + reflexivity.
    + lia.
    + intros x y _ Hy. destruct Hy.
  - reflexivity.
  - reflexivity.
  - cbn [slice_rev_tail shape data prod_shape fold_right]. rewrite Hlr. reflexivity.
  - cbn [shape data prod_shape fold_right]. lia.
  - unfold values_ok. cbn [slice_rev_tail data]. rewrite Hlr. constructor.
  - destruct Hc as [_ H]. exact H.
Qed.

(** X14: empty vectors are accepted: [toeplitz] and [hankel] return the empty
    array of shape [(len(c), len(r))] when [c] or [r] has no element, without
    raising. *)
Theorem empty_vectors_accepted (c r : ndarray) (nc nr : nat) :
  wf c -> wf r -> shape c = [nc] -> shape r = [nr] ->
  (nc = 0 \/ nr = 0)%nat -> Z.of_nat (nc + nr) <= 2 ^ 63 ->
  (exists A, toeplitz c (Some r) = Ok A /\ shape A = [nc; nr]
             /\ length (data A) = 0%nat)
  /\ (exists A, hankel c (Some r) = Ok A /\ shape A = [nc; nr]
                /\ length (data A) = 0%nat).
Proof.
  intros Hc Hr Hcs Hrs Hempty Hsmall. split.
  - destruct (Nat.eq_dec nr 0) as [-> | Hnr].
    + destruct (toeplitz_empty_row c r nc Hc Hr Hcs Hrs ltac:(lia))
        as (A & HA & HAs & HAd).
      exists A. rewrite HAd. auto.
    + assert (nc = 0%nat) by lia. subst nc.
      rewrite (toeplitz_value c r 0 nr Hc Hr Hcs Hrs ltac:(lia) Hsmall).
      eexists. split; [reflexivity|]. split; reflexivity.
  - destruct (ravel_1d r nr Hr Hrs) as (H1 & H2 & H3).
    rewrite (hankel_value c (Some r) nc nr Hc Hcs H1 H2 H3 Hsmall).
    eexists. split; [reflexivity|]. split; [reflexivity|]. cbn [data].
    rewrite (length_flat_map_rows _ nr).
    + rewrite length_arange. destruct Hempty; subst; lia.
    + intros x _. rewrite length_map, length_arange. lia.
Qed.

Lemma empty_vectors_accepted_witness :
  (exists A, toeplitz (array1 dt_int [1; 2]) (Some (array1 dt_int [])) = Ok A
             /\ shape A = [2%nat; 0%nat] /\ length (data A) = 0%nat)
  /\ (exists A, hankel (array1 dt_int [1; 2]) (Some (array1 dt_int [])) = Ok A
                /\ shape A = [2%nat; 0%nat] /\ length (data A) = 0%nat).
Proof.
  apply (empty_vectors_accepted (array1 dt_int [1; 2]) (array1 dt_int []) 2 0).
  - split; [reflexivity | repeat constructor].
  - split; [reflexivity | constructor].
  - reflexivity.
  - reflexivity.
  - right. reflexivity.
  - int64_consts. vm_compute. discriminate.
Defined.

(** ** tri with its defaults *)

(** X5: called with a size only, [tri(N)] is the square boolean mask of the lower
    triangle with its diagonal; a string in the place of [M] (the legacy form
    [tri(N, 'd')]) gives the same square mask in that element type, whatever
    [dtype] says. *)
Theorem tri_square_default (N k : Z) (d : dtype) (dt : option dtype) :
  0 <= N < 2 ^ 63 ->
  shape (tri N M_None k None) = [Z.to_nat N; Z.to_nat N]
  /\ dtype_of (tri N M_None k None) = dt_bool
  /\ shape (tri N (M_str d) k dt) = [Z.to_nat N; Z.to_nat N]
  /\ dtype_of (tri N (M_str d) k dt) = d
  /\ forall i j, Z.of_nat i < N -> Z.of_nat j < N ->
       get2 (tri N M_None k None) i j = Z.b2z (Z.of_nat j <=? Z.of_nat i + k)
       /\ get2 (tri N (M_str d) k dt) i j = Z.b2z (Z.of_nat j <=? Z.of_nat i + k).
Proof.
  intros HN.
  change (tri N M_None k None) with (tri N (M_int N) k None).
  change (tri N (M_str d) k dt) with (tri N (M_int N) k (Some d)).
  rewrite !tri_shape. repeat split; intros; apply tri_entry; lia.
Qed.

Lemma tri_square_default_witness :
  shape (tri 3 M_None 0 None) = [3%nat; 3%nat]
  /\ get2 (tri 3 M_None 0 None) 1 1 = 1
  /\ get2 (tri 3 (M_str dt_float) 0 (Some dt_int)) 0 1 = 0
  /\ dtype_of (tri 3 (M_str dt_float) 0 (Some dt_int)) = dt_float.
Proof.
  assert (H3 : 0 <= 3 < 2 ^ 63) by (int64_consts; lia).
  destruct (tri_square_default 3 0 dt_float (Some dt_int) H3)
    as (Hs & _ & _ & Hd & He).
  split; [exact Hs|]. split; [|split; [|exact Hd]].
  - apply (He 1%nat 1%nat); vm_compute; reflexivity.
  - apply (He 0%nat 1%nat); vm_compute; reflexivity.
Defined.
